(** * vl671_fix_fw_checksum: the two CRC engines and the in-place patcher

    A shallow embedding of [utils/vl671_fix_fw_checksum.py].  Python
    integers are unbounded, so they are modelled as [Z] with the bit
    operations of [Z]; a [bytes] object is a [list byte]; the open file
    is a byte list together with the position of the handle. *)

From Stdlib Require Import ZArith Lia Strings.Byte String.
From stdpp Require Import base list gmap strings.

Local Open Scope Z_scope.

(** ** Python values *)

(** The integer a byte stands for when a [bytes] object is iterated. *)
Definition byte_val (b : byte) : Z := Z.of_N (Byte.to_N b).

(** Truth value of an integer in a condition: everything but zero. *)
Definition truthy (z : Z) : bool := negb (z =? 0).

(** ** CRC-8 (source lines 4-23) *)

(** One pass of the inner loop: conditional XOR, then [v5 *= 2]. *)
Definition crc8_round (v5 : Z) : Z :=
  let v5 := if truthy (Z.land v5 0x8000) then Z.lxor v5 0x8380 else v5 in
  v5 * 2.

(** One pass of the outer loop; the mask comes after the eight rounds. *)
Definition crc8_byte (v5 : Z) (b : byte) : Z :=
  let v5 := Z.lxor v5 (Z.shiftl (byte_val b) 8) in
  let v5 := Nat.iter 8 crc8_round v5 in
  Z.land v5 0xFFFF.

Definition crc8 (data : list byte) : Z :=
  let v5 := fold_left crc8_byte data 0 in
  Z.land (Z.shiftr v5 8) 0xFF.

(** ** CRC-32 (source lines 25-47) *)

(** One pass of the inner loop; the mask closes every round. *)
Definition crc32_round (poly crc : Z) : Z :=
  let crc :=
    if truthy (Z.land crc 0x80000000)
    then Z.lxor (Z.shiftl crc 1) poly
    else Z.shiftl crc 1 in
  Z.land crc 0xFFFFFFFF.

Definition crc32_byte (poly crc : Z) (b : byte) : Z :=
  let crc := Z.lxor crc (Z.shiftl (byte_val b) 24) in
  Nat.iter 8 (crc32_round poly) crc.

Definition crc32 (data : list byte) (poly init xorout : Z) : Z :=
  let crc := fold_left (crc32_byte poly) data init in
  Z.lxor crc xorout.

(** The keyword defaults of the signature, used by the only call site. *)
Definition crc32_defaults (data : list byte) : Z :=
  crc32 data 0x04C11DB7 0x0 0x0.

(** The two bit-serial algorithms as the specification words them: a
    16-bit accumulator masked after every single shift for CRC-8, and a
    CRC-32 whose returned value is masked to 32 bits. *)
Module Reference.

Definition crc8_round (acc : Z) : Z :=
  let acc := if Z.testbit acc 15 then Z.lxor acc 0x8380 else acc in
  Z.land (Z.shiftl acc 1) 0xFFFF.

Definition crc8_byte (acc : Z) (b : byte) : Z :=
  Nat.iter 8 crc8_round (Z.lxor acc (Z.shiftl (byte_val b) 8)).

Definition crc8 (data : list byte) : Z :=
  Z.land (Z.shiftr (fold_left crc8_byte data 0) 8) 0xFF.

Definition crc32_round (poly acc : Z) : Z :=
  let acc :=
    if Z.testbit acc 31
    then Z.lxor (Z.shiftl acc 1) poly
    else Z.shiftl acc 1 in
  Z.land acc 0xFFFFFFFF.

Definition crc32_byte (poly acc : Z) (b : byte) : Z :=
  Nat.iter 8 (crc32_round poly) (Z.lxor acc (Z.shiftl (byte_val b) 24)).

Definition crc32 (data : list byte) (poly init xorout : Z) : Z :=
  Z.land (Z.lxor (fold_left (crc32_byte poly) data init) xorout) 0xFFFFFFFF.

End Reference.

(** ** Exceptions and the file handle *)

(** The exceptions the patcher can meet; all of them are caught by the
    [except Exception] of [fix_firmware_checksum]. *)
Inductive exn : Type :=
| ValueError (msg : string)
| StructError (msg : string)
| OSError (msg : string).

Inductive res (A : Type) : Type :=
| Ok (a : A)
| Raise (e : exn).
Arguments Ok {A} a.
Arguments Raise {A} e.

(** A file opened with mode [r+b]: its bytes and the position of the
    handle.  The bytes outlive an exception, so a failing run keeps the
    writes it has made. *)
Record handle : Type := Handle { content : list byte; pos : nat }.

Definition io (A : Type) : Type := handle -> res A * handle.

Definition ret {A : Type} (a : A) : io A := fun h => (Ok a, h).

Definition raise {A : Type} (e : exn) : io A := fun h => (Raise e, h).

Definition bind {A B : Type} (m : io A) (k : A -> io B) : io B :=
  fun h =>
    match m h with
    | (Ok a, h') => k a h'
    | (Raise e, h') => (Raise e, h')
    end.

Definition lift {A : Type} (r : res A) : io A := fun h => (r, h).

Notation "'do' x <- m ;; k" := (bind m (fun x => k))
  (at level 10, x name, m at level 99, k at level 200).
Notation "'run' m ;; k" := (bind m (fun _ => k))
  (at level 10, m at level 99, k at level 200).

(** [f.seek(offset)]: a negative offset is refused. *)
Definition seek (offset : Z) : io unit :=
  fun h =>
    if offset <? 0
    then (Raise (OSError "[Errno 22] Invalid argument"), h)
    else (Ok tt, Handle (content h) (Z.to_nat offset)).

(** [f.read(size)]: at most [size] bytes from the position on, fewer at
    the end of the file; a negative size reads to the end. *)
Definition read (size : Z) : io (list byte) :=
  fun h =>
    let rest := drop (pos h) (content h) in
    let data := if size <? 0 then rest else take (Z.to_nat size) rest in
    (Ok data, Handle (content h) (pos h + length data)%nat).

(** The bytes of a file after [data] is written at position [p]: bytes
    in place are overwritten, a write that reaches past the end makes
    the file longer, and a gap between the old end and [p] reads as
    zeros.  Writing nothing changes nothing. *)
Definition pwrite (p : nat) (data : list byte) (c : list byte) : list byte :=
  match data with
  | [] => c
  | _ => resize p "000"%byte c ++ data ++ drop (p + length data) c
  end.

(** [f.write(data)] *)
Definition write (data : list byte) : io unit :=
  fun h =>
    (Ok tt, Handle (pwrite (pos h) data (content h)) (pos h + length data)%nat).

(** ** Conversions between integers and bytes *)

(** The byte with value [z mod 256]. *)
Definition low_byte (z : Z) : byte :=
  match Byte.of_N (Z.to_N (Z.land z 0xFF)) with
  | Some b => b
  | None => "000"%byte
  end.

(** [bytes(ints)]: every integer has to be in [range(256)]. *)
Fixpoint bytes_of_ints (ints : list Z) : res (list byte) :=
  match ints with
  | [] => Ok []
  | z :: ints =>
      if (0 <=? z) && (z <? 256)
      then match bytes_of_ints ints with
           | Ok bs => Ok (low_byte z :: bs)
           | Raise e => Raise e
           end
      else Raise (ValueError "bytes must be in range(0, 256)")
  end.

(** [struct.unpack('>H', buffer)[0]] *)
Definition unpack_be_H (buffer : list byte) : res Z :=
  match buffer with
  | [hi; lo] => Ok (byte_val hi * 256 + byte_val lo)
  | _ => Raise (StructError "unpack requires a buffer of 2 bytes")
  end.

(** The four bytes of a 32-bit value, least significant first. *)
Definition le_bytes4 (v : Z) : list byte :=
  [low_byte v; low_byte (Z.shiftr v 8);
   low_byte (Z.shiftr v 16); low_byte (Z.shiftr v 24)].

(** [struct.pack('<I', v)] *)
Definition pack_le_I (v : Z) : res (list byte) :=
  if (0 <=? v) && (v <? 2 ^ 32)
  then Ok (le_bytes4 v)
  else Raise (StructError "argument out of range").

(** ** The patcher (source lines 49-96) *)

Definition msg_header : string :=
  "File is too small to contain required header bytes for CRC8 calculation.".

Definition msg_payload_size : string :=
  "Payload size in header is too small to contain checksum.".

Definition msg_payload : string :=
  "File is too small to contain the entire payload.".

(** The body of the [with] block. *)
Definition patch : io unit :=
  run seek 0 ;;
  do header <- read 0x1F ;;
  if Z.of_nat (length header) <? 0x1F then raise (ValueError msg_header) else
  let crc8_checksum := crc8 header in
  run seek 0x1F ;;
  do b <- lift (bytes_of_ints [crc8_checksum]) ;;
  run write b ;;
  run seek 0x4 ;;
  do b <- read 2 ;;
  do payload_offset <- lift (unpack_be_H b) ;;
  do b <- read 2 ;;
  do payload_size <- lift (unpack_be_H b) ;;
  if payload_size <? 4 then raise (ValueError msg_payload_size) else
  run seek payload_offset ;;
  do payload <- read (payload_size - 4) ;;
  if negb (Z.of_nat (length payload) =? payload_size - 4)
  then raise (ValueError msg_payload) else
  let crc32_checksum := crc32_defaults payload in
  run seek (payload_offset + payload_size - 4) ;;
  do b <- lift (pack_le_I crc32_checksum) ;;
  write b.

(** What a run leaves behind: the line it prints, either the success
    message or [Error: ...], and the bytes of the file. *)
Inductive report : Type :=
| Fixed
| Failed (e : exn).

Definition fix_firmware_checksum (file : list byte) : report * list byte :=
  match patch (Handle file 0) with
  | (Ok _, h) => (Fixed, content h)
  | (Raise e, h) => (Failed e, content h)
  end.

(** ** The layout of the data model *)

(** The big-endian 16-bit field at offset [i]; 0 where the file has no
    two bytes there. *)
Definition field_be16 (c : list byte) (i : nat) : Z :=
  match c !! i, c !! S i with
  | Some hi, Some lo => byte_val hi * 256 + byte_val lo
  | _, _ => 0
  end.

Definition payload_offset (c : list byte) : Z := field_be16 c 4.
Definition payload_size (c : list byte) : Z := field_be16 c 6.

(** Offset of the payload CRC-32 slot, as the header declares it. *)
Definition crc32_slot (c : list byte) : Z :=
  payload_offset c + payload_size c - 4.

(** The header region and the value of the byte stored at an offset. *)
Definition header (c : list byte) : list byte := take 31 c.

Definition byte_at (c : list byte) (i : nat) : option Z := byte_val <$> c !! i.

(** The file once the header CRC-8 is stored at 0x1F. *)
Definition crc8_committed (c : list byte) : list byte :=
  pwrite 31 [low_byte (crc8 (header c))] c.

(** The payload data of a file: [payload_size - 4] bytes from
    [payload_offset] on, as many of them as the file holds. *)
Definition payload_data (c : list byte) : list byte :=
  take (Z.to_nat (payload_size c - 4)) (drop (Z.to_nat (payload_offset c)) c).

(** The file once the payload CRC-32 is stored as well. *)
Definition patched (c : list byte) : list byte :=
  let c1 := crc8_committed c in
  pwrite (Z.to_nat (crc32_slot c))
    (le_bytes4 (crc32_defaults (payload_data c1))) c1.

(** The four ways a run can end. *)
Inductive run_view (c : list byte) : report * list byte -> Prop :=
| run_header_short :
    (length c < 31)%nat ->
    run_view c (Failed (ValueError msg_header), c)
| run_size_small :
    (31 <= length c)%nat -> payload_size c < 4 ->
    run_view c (Failed (ValueError msg_payload_size), crc8_committed c)
| run_payload_short :
    (31 <= length c)%nat -> 4 <= payload_size c ->
    Z.of_nat (length (payload_data (crc8_committed c))) <> payload_size c - 4 ->
    run_view c (Failed (ValueError msg_payload), crc8_committed c)
| run_fixed :
    (31 <= length c)%nat -> 4 <= payload_size c ->
    Z.of_nat (length (payload_data (crc8_committed c))) = payload_size c - 4 ->
    run_view c (Fixed, patched c).

(** ** Sample images *)

(** Payload at 0x20, 8 bytes long: four bytes of data and the slot. *)
Definition image_plain : list byte :=
  (replicate 4 "000" ++ ["000"; "032"; "000"; "008"] ++ replicate 24 "005"
   ++ replicate 8 "007")%byte.

(** Payload at 0x10, 24 bytes long: the data spans offset 0x1F. *)
Definition image_spanning : list byte :=
  (replicate 4 "000" ++ ["000"; "016"; "000"; "024"] ++ replicate 24 "005"
   ++ replicate 12 "007")%byte.

(** Payload at 0x20, 8 bytes declared, the file ends at 0x24. *)
Definition image_no_slot : list byte :=
  (replicate 4 "000" ++ ["000"; "032"; "000"; "008"] ++ replicate 24 "000"
   ++ replicate 4 "007")%byte.

(** Payload at 0x20, 12 bytes declared, the file ends at 0x24. *)
Definition image_truncated : list byte :=
  (replicate 4 "000" ++ ["000"; "032"; "000"; "012"] ++ replicate 24 "000"
   ++ replicate 4 "007")%byte.

(** Payload at 0x20 with a declared size of 3. *)
Definition image_size3 : list byte :=
  (replicate 4 "000" ++ ["000"; "032"; "000"; "003"] ++ replicate 24 "009"
   ++ ["001"; "002"; "003"])%byte.

(** A payload of size 4 at offset 0: the slot lies on bytes 0..3. *)
Definition image_slot_on_header : list byte :=
  (["001"; "000"; "000"; "000"; "000"; "000"; "000"; "004"]
   ++ replicate 24 "000")%byte.

(** A payload of size 4 at offset 4: the slot lies on the descriptor. *)
Definition image_slot_on_descriptor : list byte :=
  (["001"; "000"; "000"; "000"; "000"; "004"; "000"; "004"]
   ++ replicate 24 "000")%byte.

(** A payload of size 4 at offset 27: the slot lies on bytes 27..30,
    just below the CRC-8 byte. *)
Definition image_slot_at_27 : list byte :=
  (replicate 4 "000" ++ ["000"; "027"; "000"; "004"] ++ replicate 19 "000"
   ++ replicate 5 "255")%byte.

(** Thirty-one and thirty bytes. *)
Definition image_31 : list byte := replicate 31 "000"%byte.
Definition image_30 : list byte := replicate 30 "000"%byte.

(** ** The CRC-8 of polynomial x^8 + x^2 + x + 1 *)

(** The usual MSB-first CRC-8 on an 8-bit register: initial value 0,
    feedback 0x07, no reflection, no final XOR. *)
Module Textbook.

Definition crc8_round (crc : Z) : Z :=
  let crc :=
    if Z.testbit crc 7
    then Z.lxor (Z.shiftl crc 1) 0x07
    else Z.shiftl crc 1 in
  Z.land crc 0xFF.

Definition crc8_byte (crc : Z) (b : byte) : Z :=
  Nat.iter 8 crc8_round (Z.lxor crc (byte_val b)).

Definition crc8 (data : list byte) : Z := fold_left crc8_byte data 0.

End Textbook.

(** ** Byte strings combined bit by bit *)

(** [bytes(x ^ y for x, y in zip(a, b))] *)
Definition byte_xor (x y : byte) : byte :=
  low_byte (Z.lxor (byte_val x) (byte_val y)).

Definition bytes_xor (a b : list byte) : list byte := zip_with byte_xor a b.

(** ** The printed lines and the command line (source lines 93-104) *)

(** [str(e)] for an exception that carries one message. *)
Definition str_exn (e : exn) : string :=
  match e with
  | ValueError msg | StructError msg | OSError msg => msg
  end.

(** The line [fix_firmware_checksum] prints when it is done. *)
Definition printed (file_path : string) (r : report) : string :=
  match r with
  | Fixed => "Checksums fixed successfully for file: " +:+ file_path
  | Failed e => "Error: " +:+ str_exn e
  end.

Definition usage : string :=
  "Usage: python fix_firmware_checksum.py <file_path>".

Section CommandLine.

(** The exception that [open(file_path, "r+b")] raises for a path it
    cannot open.  The files it can open are given as [files], one file
    per path, from the path to the bytes of the file. *)
Variable open_error : string -> exn.

(** [fix_firmware_checksum(file_path)] on a standard output that accepts
    every line: the printed lines and the files afterwards.  The output
    that can refuse a line is modelled further down. *)
Definition fix_firmware_checksum_path
    (file_path : string) (files : gmap string (list byte))
  : list string * gmap string (list byte) :=
  match files !! file_path with
  | Some file =>
      let '(r, file') := fix_firmware_checksum file in
      ([printed file_path r], <[file_path := file']> files)
  | None => ([printed file_path (Failed (open_error file_path))], files)
  end.

(** The [__main__] block: printed lines, exit status, files.  A list of
    two elements is what [len(sys.argv) != 2] lets through, and its
    second element is [sys.argv[1]]. *)
Definition main (argv : list string) (files : gmap string (list byte))
  : list string * Z * gmap string (list byte) :=
  match argv with
  | [_; file_path] =>
      let '(out, files') := fix_firmware_checksum_path file_path files in
      (out, 0, files')
  | _ => ([usage], 1, files)
  end.

End CommandLine.

(** ** The command line on an output that can refuse a line *)

Section Console.

Variable open_error : string -> exn.

(** The exception that [print(line)] raises on the standard output at
    hand before anything of the line is written, for instance for a path
    the output encoding cannot represent; [None] when the line is
    printed. *)
Variable print_error : string -> option exn.

(** [print(line)]: the lines written and the exception raised. *)
Definition print_line (line : string) : list string * option exn :=
  match print_error line with
  | None => ([line], None)
  | Some e => ([], Some e)
  end.

(** [fix_firmware_checksum(file_path)] with its [try]: the success line
    is printed inside the [try], after the [with] block has closed the
    file, so an exception of that [print] is caught like one of the
    block; an exception of the [print] in the handler is not caught and
    leaves the function. *)
Definition fix_firmware_checksum_console
    (file_path : string) (files : gmap string (list byte))
  : list string * option exn * gmap string (list byte) :=
  let '(tried, files') :=
    match files !! file_path with
    | Some file =>
        let '(r, file') := fix_firmware_checksum file in
        (match r with
         | Fixed => print_line (printed file_path Fixed)
         | Failed e => ([], Some e)
         end, <[file_path := file']> files)
    | None => (([], Some (open_error file_path)), files)
    end in
  match tried with
  | (out, None) => (out, None, files')
  | (out, Some e) =>
      let '(out', uncaught) := print_line (printed file_path (Failed e)) in
      (out ++ out', uncaught, files')
  end.

(** The [__main__] block: an exception that nothing catches ends the
    process with a traceback and status 1, the status of [sys.exit(1)]
    too. *)
Definition main_console (argv : list string) (files : gmap string (list byte))
  : list string * Z * gmap string (list byte) :=
  match argv with
  | [_; file_path] =>
      let '(out, uncaught, files') :=
        fix_firmware_checksum_console file_path files in
      (out, match uncaught with None => 0 | Some _ => 1 end, files')
  | _ => (fst (print_line usage), 1, files)
  end.

End Console.

(** ** Bit-level facts *)

Lemma byte_val_range (b : byte) : 0 <= byte_val b < 256.
Proof.
  unfold byte_val. pose proof (Byte.to_N_bounded b). lia.
Qed.

Lemma mask_testbit (n v i : Z) :
  0 <= n -> Z.testbit (Z.land v (Z.ones n)) i = Z.testbit v i && (i <? n).
Proof.
  intros Hn. rewrite Z.land_spec.
  destruct (Z.ltb_spec i 0) as [Hi|Hi]; [now rewrite !Z.testbit_neg_r|].
  f_equal. destruct (Z.ltb_spec i n).
  - apply Z.ones_spec_low; lia.
  - apply Z.ones_spec_high; lia.
Qed.

Lemma truthy_bit (v k : Z) :
  0 <= k -> truthy (Z.land v (2 ^ k)) = Z.testbit v k.
Proof.
  intros Hk. unfold truthy.
  destruct (Z.testbit v k) eqn:Hb.
  - apply negb_true_iff, Z.eqb_neq. intros H0.
    assert (Z.testbit (Z.land v (2 ^ k)) k = true) as Ht.
    { rewrite Z.land_spec, Hb, Z.pow2_bits_true; auto. }
    rewrite H0, Z.bits_0 in Ht. discriminate.
  - apply negb_false_iff, Z.eqb_eq, Z.bits_inj'. intros i Hi.
    rewrite Z.land_spec, Z.bits_0.
    destruct (Z.eq_dec i k) as [->|Hne].
    + now rewrite Hb.
    + rewrite (Z.pow2_bits_false k i) by lia. apply andb_false_r.
Qed.

Lemma mask_small (n v : Z) : 0 <= n -> 0 <= v < 2 ^ n -> Z.land v (Z.ones n) = v.
Proof.
  intros Hn Hv. rewrite Z.land_ones by lia. apply Z.mod_small; lia.
Qed.

Lemma mask_range (n v : Z) : 0 <= n -> 0 <= Z.land v (Z.ones n) < 2 ^ n.
Proof.
  intros Hn. rewrite Z.land_ones by lia. apply Z.mod_pos_bound. lia.
Qed.

Lemma lxor_range (n a b : Z) :
  0 <= n -> 0 <= a < 2 ^ n -> 0 <= b < 2 ^ n -> 0 <= Z.lxor a b < 2 ^ n.
Proof.
  intros Hn Ha Hb.
  assert (0 <= Z.lxor a b) as Hnn by (apply Z.lxor_nonneg; lia).
  split; [exact Hnn|].
  rewrite <- (mask_small n (Z.lxor a b)); [apply mask_range; lia|lia|].
  split; [exact Hnn|].
  destruct (Z.eq_dec (Z.lxor a b) 0) as [->|Hne]; [lia|].
  apply Z.log2_lt_pow2; [lia|].
  eapply Z.le_lt_trans; [apply Z.log2_lxor; lia|].
  destruct (Z.eq_dec a 0) as [->|Ha0]; destruct (Z.eq_dec b 0) as [->|Hb0];
    rewrite ?Z.lxor_0_l, ?Z.lxor_0_r in *; try congruence.
  - rewrite Z.max_r by apply Z.log2_nonneg. apply Z.log2_lt_pow2; lia.
  - rewrite Z.max_l by apply Z.log2_nonneg. apply Z.log2_lt_pow2; lia.
  - apply Z.max_lub_lt; apply Z.log2_lt_pow2; lia.
Qed.

Lemma double_shiftl (v : Z) : v * 2 = Z.shiftl v 1.
Proof. now rewrite Z.shiftl_mul_pow2. Qed.

(** ** CRC-8: masking once per byte is masking after every shift *)

Lemma crc8_round_mask (v : Z) :
  Z.land (crc8_round v) 0xFFFF = Reference.crc8_round (Z.land v 0xFFFF).
Proof.
  unfold crc8_round, Reference.crc8_round.
  change 0x8000 with (2 ^ 15). change 0xFFFF with (Z.ones 16).
  rewrite truthy_bit, mask_testbit by lia.
  replace (15 <? 16) with true by reflexivity. rewrite andb_true_r.
  apply Z.bits_inj'. intros i Hi.
  rewrite !mask_testbit by lia.
  destruct (Z.ltb_spec i 16); [|now rewrite !andb_false_r].
  rewrite !andb_true_r, double_shiftl.
  rewrite !Z.shiftl_spec by lia.
  destruct (Z.testbit v 15).
  - rewrite !Z.lxor_spec, mask_testbit by lia.
    replace (i - 1 <? 16) with true by (symmetry; apply Z.ltb_lt; lia).
    now rewrite andb_true_r.
  - rewrite mask_testbit by lia.
    replace (i - 1 <? 16) with true by (symmetry; apply Z.ltb_lt; lia).
    now rewrite andb_true_r.
Qed.

Lemma crc8_rounds_mask (k : nat) (v : Z) :
  Z.land (Nat.iter k crc8_round v) 0xFFFF
  = Nat.iter k Reference.crc8_round (Z.land v 0xFFFF).
Proof.
  induction k as [|k IH]; [reflexivity|].
  now rewrite !Nat.iter_succ, crc8_round_mask, IH.
Qed.

Lemma crc8_byte_range (v : Z) (b : byte) : 0 <= crc8_byte v b < 2 ^ 16.
Proof. unfold crc8_byte. apply (mask_range 16). lia. Qed.

Lemma crc8_byte_reference (v : Z) (b : byte) :
  0 <= v < 2 ^ 16 -> crc8_byte v b = Reference.crc8_byte v b.
Proof.
  intros Hv. unfold crc8_byte, Reference.crc8_byte.
  rewrite crc8_rounds_mask. f_equal.
  apply (mask_small 16); [lia|].
  apply lxor_range; [lia|exact Hv|].
  pose proof (byte_val_range b). rewrite Z.shiftl_mul_pow2 by lia. lia.
Qed.

Lemma crc8_fold_reference (data : list byte) (v : Z) :
  0 <= v < 2 ^ 16 ->
  fold_left crc8_byte data v = fold_left Reference.crc8_byte data v.
Proof.
  revert v. induction data as [|b data IH]; intros v Hv; [reflexivity|].
  cbn [fold_left]. rewrite <- crc8_byte_reference by exact Hv.
  apply IH, crc8_byte_range.
Qed.

(** C1: on every byte sequence [crc8] computes the reference bit-serial
    algorithm that masks to 16 bits after every shift, and the checksum
    of the empty sequence is 0. *)
Theorem crc8_is_reference :
  (forall data : list byte, crc8 data = Reference.crc8 data) /\ crc8 [] = 0.
Proof.
  split; [|reflexivity].
  intros data. unfold crc8, Reference.crc8.
  now rewrite crc8_fold_reference by lia.
Qed.

(** ** CRC-32 against its reference *)

Lemma crc32_round_reference (poly crc : Z) :
  crc32_round poly crc = Reference.crc32_round poly crc.
Proof.
  unfold crc32_round, Reference.crc32_round.
  change 0x80000000 with (2 ^ 31). now rewrite truthy_bit.
Qed.

Lemma crc32_byte_reference (poly crc : Z) (b : byte) :
  crc32_byte poly crc b = Reference.crc32_byte poly crc b.
Proof.
  unfold crc32_byte, Reference.crc32_byte.
  generalize (Z.lxor crc (Z.shiftl (byte_val b) 24)) as x.
  generalize 8%nat as k.
  induction k as [|k IH]; intros x; [reflexivity|].
  now rewrite !Nat.iter_succ, IH, crc32_round_reference.
Qed.

Lemma crc32_fold_reference (poly : Z) (data : list byte) (crc : Z) :
  fold_left (crc32_byte poly) data crc
  = fold_left (Reference.crc32_byte poly) data crc.
Proof.
  revert crc. induction data as [|b data IH]; intros crc; [reflexivity|].
  cbn [fold_left]. now rewrite crc32_byte_reference, IH.
Qed.

Lemma crc32_round_range (poly crc : Z) : 0 <= crc32_round poly crc < 2 ^ 32.
Proof. unfold crc32_round. apply (mask_range 32). lia. Qed.

Lemma crc32_byte_range (poly crc : Z) (b : byte) :
  0 <= crc32_byte poly crc b < 2 ^ 32.
Proof.
  unfold crc32_byte. change 8%nat with (S 7).
  rewrite Nat.iter_succ. apply crc32_round_range.
Qed.

Lemma crc32_fold_range (poly : Z) (data : list byte) (crc : Z) :
  0 <= crc < 2 ^ 32 -> 0 <= fold_left (crc32_byte poly) data crc < 2 ^ 32.
Proof.
  revert crc. induction data as [|b data IH]; intros crc Hc; [exact Hc|].
  cbn [fold_left]. apply IH, crc32_byte_range.
Qed.

Lemma crc32_fold_range' (poly : Z) (data : list byte) (crc : Z) :
  (data = [] -> 0 <= crc < 2 ^ 32) ->
  0 <= fold_left (crc32_byte poly) data crc < 2 ^ 32.
Proof.
  intros Hc. destruct data as [|b data]; [now apply Hc|].
  cbn [fold_left]. apply crc32_fold_range, crc32_byte_range.
Qed.

Lemma crc32_range (data : list byte) (poly init xorout : Z) :
  (data = [] -> 0 <= init < 2 ^ 32) -> 0 <= xorout < 2 ^ 32 ->
  0 <= crc32 data poly init xorout < 2 ^ 32.
Proof.
  intros Hi Hx. unfold crc32.
  apply lxor_range; [lia|now apply crc32_fold_range'|exact Hx].
Qed.

Lemma crc32_defaults_range (data : list byte) :
  0 <= crc32_defaults data < 2 ^ 32.
Proof. apply crc32_range; lia. Qed.

Lemma crc32_reference_masks (data : list byte) (poly init xorout : Z) :
  Reference.crc32 data poly init xorout
  = Z.land (crc32 data poly init xorout) 0xFFFFFFFF.
Proof.
  unfold Reference.crc32, crc32. now rewrite crc32_fold_reference.
Qed.

(** C2, as the code has it: no mask follows the final XOR, so for all
    parameters the reference value is the returned value masked to 32
    bits, and the two agree exactly when the returned value is a 32-bit
    value.  It is one when the output mask is a 32-bit value and, for
    the empty sequence, the initial value is one too, whatever the
    polynomial; the checksum of the empty sequence is [init ^ xorout]
    for all parameters. *)
Theorem crc32_is_reference (data : list byte) (poly init xorout : Z) :
  0 <= xorout < 2 ^ 32 -> (data = [] -> 0 <= init < 2 ^ 32) ->
  crc32 data poly init xorout = Reference.crc32 data poly init xorout
  /\ 0 <= crc32 data poly init xorout < 2 ^ 32
  /\ (forall i x : Z, crc32 [] poly i x = Z.lxor i x)
  /\ (forall i x : Z,
        Reference.crc32 data poly i x = Z.land (crc32 data poly i x) 0xFFFFFFFF)
  /\ (forall i x : Z,
        crc32 data poly i x = Reference.crc32 data poly i x
        <-> 0 <= crc32 data poly i x < 2 ^ 32).
Proof.
  intros Hx Hi. pose proof (crc32_range data poly init xorout Hi Hx) as Hr.
  assert (forall i x : Z,
            crc32 data poly i x = Reference.crc32 data poly i x
            <-> 0 <= crc32 data poly i x < 2 ^ 32) as Hiff.
  { intros i x. rewrite crc32_reference_masks. split.
    - intros ->. apply (mask_range 32). lia.
    - intros Hri. symmetry. apply (mask_small 32); [lia|exact Hri]. }
  split; [now apply Hiff|]. split; [exact Hr|]. split; [reflexivity|].
  split; [intros i x; apply crc32_reference_masks|exact Hiff].
Qed.

Lemma crc32_is_reference_witness :
  crc32 ["a"%byte; "b"%byte] 0x04C11DB7 (-1) 0xFFFFFFFF
  = Reference.crc32 ["a"%byte; "b"%byte] 0x04C11DB7 (-1) 0xFFFFFFFF
  /\ 0 <= crc32 ["a"%byte; "b"%byte] 0x04C11DB7 (-1) 0xFFFFFFFF < 2 ^ 32
  /\ (forall i x : Z, crc32 [] 0x04C11DB7 i x = Z.lxor i x)
  /\ (forall i x : Z,
        Reference.crc32 ["a"%byte; "b"%byte] 0x04C11DB7 i x
        = Z.land (crc32 ["a"%byte; "b"%byte] 0x04C11DB7 i x) 0xFFFFFFFF)
  /\ (forall i x : Z,
        crc32 ["a"%byte; "b"%byte] 0x04C11DB7 i x
        = Reference.crc32 ["a"%byte; "b"%byte] 0x04C11DB7 i x
        <-> 0 <= crc32 ["a"%byte; "b"%byte] 0x04C11DB7 i x < 2 ^ 32).
Proof. apply crc32_is_reference; [lia|discriminate]. Defined.

(** C2, as the specification words it, fails: with an output mask of 33 bits the
    returned value is neither the reference value nor a 32-bit value. *)
Lemma crc32_unmasked_result :
  crc32 ["001"%byte] 0x04C11DB7 0 0x100000000 = 0x104C11DB7
  /\ Reference.crc32 ["001"%byte] 0x04C11DB7 0 0x100000000 = 0x04C11DB7
  /\ ~ (forall (data : list byte) (poly init xorout : Z),
          crc32 data poly init xorout = Reference.crc32 data poly init xorout
          /\ 0 <= crc32 data poly init xorout < 2 ^ 32).
Proof.
  split; [reflexivity|split; [reflexivity|]].
  intros H. destruct (H ["001"%byte] 0x04C11DB7 0 0x100000000) as [He _].
  vm_compute in He. discriminate.
Qed.

(** C9: the output mask enters the result by one final XOR. *)
Theorem crc32_xorout (data : list byte) (poly init xorout : Z) :
  crc32 data poly init xorout = Z.lxor (crc32 data poly init 0) xorout.
Proof. unfold crc32. now rewrite Z.lxor_0_r. Qed.

(** ** Bytes and integers *)

Lemma byte_val_low_byte (z : Z) : byte_val (low_byte z) = Z.land z 0xFF.
Proof.
  pose proof (mask_range 8 z ltac:(lia)) as Hr. change (Z.ones 8) with 0xFF in Hr.
  unfold low_byte, byte_val.
  destruct (Byte.of_N (Z.to_N (Z.land z 0xFF))) as [b|] eqn:Hb.
  - apply Byte.to_of_N in Hb. rewrite Hb. lia.
  - apply Byte.of_N_None_iff in Hb. lia.
Qed.

Lemma crc8_range (data : list byte) : 0 <= crc8 data < 256.
Proof. unfold crc8. apply (mask_range 8). lia. Qed.

Lemma byte_val_crc8 (data : list byte) :
  byte_val (low_byte (crc8 data)) = crc8 data.
Proof.
  rewrite byte_val_low_byte. apply (mask_small 8); [lia|apply crc8_range].
Qed.

Lemma bytes_of_crc8 (data : list byte) :
  bytes_of_ints [crc8 data] = Ok [low_byte (crc8 data)].
Proof.
  pose proof (crc8_range data) as Hr. cbn [bytes_of_ints].
  replace (0 <=? crc8 data) with true by (symmetry; apply Z.leb_le; lia).
  replace (crc8 data <? 256) with true by (symmetry; apply Z.ltb_lt; lia).
  reflexivity.
Qed.

Lemma pack_crc32 (data : list byte) :
  pack_le_I (crc32_defaults data) = Ok (le_bytes4 (crc32_defaults data)).
Proof.
  pose proof (crc32_defaults_range data) as Hr. unfold pack_le_I.
  replace (0 <=? crc32_defaults data) with true by (symmetry; apply Z.leb_le; lia).
  replace (crc32_defaults data <? 2 ^ 32) with true
    by (symmetry; apply Z.ltb_lt; lia).
  reflexivity.
Qed.

Lemma field_be16_range (c : list byte) (i : nat) : 0 <= field_be16 c i < 65536.
Proof.
  unfold field_be16. destruct (c !! i) as [hi|]; [|lia].
  destruct (c !! S i) as [lo|]; [|lia].
  pose proof (byte_val_range hi). pose proof (byte_val_range lo). lia.
Qed.

(** ** Writing into the byte list *)

Section Pwrite.
Local Open Scope nat_scope.
Implicit Types (c d : list byte) (p i n : nat).

Lemma lookup_pwrite p d c i :
  d ≠ [] →
  pwrite p d c !! i =
    if decide (i < p) then
      if decide (i < length c) then c !! i else Some "000"%byte
    else if decide (i < p + length d) then d !! (i - p) else c !! i.
Proof.
  intros Hd. unfold pwrite. destruct d as [|b d]; [done|].
  set (w := b :: d). repeat case_decide.
  - rewrite lookup_app_l by (rewrite length_resize; lia).
    apply lookup_resize; lia.
  - rewrite lookup_app_l by (rewrite length_resize; lia).
    apply lookup_resize_new; lia.
  - rewrite lookup_app_r by (rewrite length_resize; lia).
    rewrite length_resize. now rewrite lookup_app_l by lia.
  - rewrite lookup_app_r by (rewrite length_resize; lia).
    rewrite length_resize, lookup_app_r, lookup_drop by lia.
    f_equal. lia.
Qed.

Lemma length_pwrite p d c :
  d ≠ [] → length (pwrite p d c) = length c `max` (p + length d).
Proof.
  intros Hd. unfold pwrite. destruct d as [|b d]; [done|].
  rewrite !length_app, length_resize, length_drop. lia.
Qed.

Lemma length_pwrite_le p d c : length c ≤ length (pwrite p d c).
Proof.
  destruct d as [|b d]; [reflexivity|].
  rewrite length_pwrite by done. lia.
Qed.

Lemma lookup_pwrite_lt p d c i :
  i < p → i < length c → pwrite p d c !! i = c !! i.
Proof.
  intros Hp Hc. destruct d as [|b d]; [reflexivity|].
  rewrite lookup_pwrite by done. now rewrite !decide_True by lia.
Qed.

Lemma lookup_pwrite_ge p d c i :
  p + length d ≤ i → pwrite p d c !! i = c !! i.
Proof.
  intros Hp. destruct d as [|b d]; [reflexivity|].
  rewrite lookup_pwrite by done. now rewrite !decide_False by lia.
Qed.

Lemma lookup_pwrite_in p d c i :
  i < length d → pwrite p d c !! (p + i) = d !! i.
Proof.
  intros Hi. destruct d as [|b d]; [cbn in Hi; lia|].
  rewrite lookup_pwrite by done.
  rewrite decide_False, decide_True by lia. f_equal. lia.
Qed.

Lemma take_pwrite p d c n :
  n ≤ p → n ≤ length c → take n (pwrite p d c) = take n c.
Proof.
  intros Hp Hc. apply list_eq. intros i.
  destruct (decide (i < n)).
  - rewrite !lookup_take_lt by lia. apply lookup_pwrite_lt; lia.
  - now rewrite !lookup_take_ge by lia.
Qed.

(** A write of the bytes that are already in place changes nothing. *)
Lemma pwrite_same p d c :
  (∀ i, i < length d → c !! (p + i) = d !! i) → pwrite p d c = c.
Proof.
  intros Hsame. destruct d as [|b d]; [reflexivity|].
  assert (p + length (b :: d) ≤ length c) as Hlen.
  { destruct (decide (p + length (b :: d) ≤ length c)) as [|Hn]; [done|].
    specialize (Hsame (length c - p)).
    destruct (decide (p ≤ length c)).
    - rewrite lookup_ge_None_2 in Hsame by lia.
      destruct (lookup_lt_is_Some_2 (b :: d) (length c - p)) as [x Hx]; [lia|].
      rewrite Hx in Hsame. discriminate Hsame. lia.
    - specialize (Hsame ltac:(cbn; lia)).
      rewrite lookup_ge_None_2 in Hsame by lia.
      replace (length c - p) with 0 in Hsame by lia. discriminate. }
  apply list_eq. intros i. rewrite lookup_pwrite by done.
  repeat case_decide; try done; try lia.
  rewrite <- Hsame by lia. f_equal. lia.
Qed.

Lemma pwrite_pwrite p d c : pwrite p d (pwrite p d c) = pwrite p d c.
Proof. apply pwrite_same. intros i Hi. now apply lookup_pwrite_in. Qed.

End Pwrite.

Lemma take_drop_pwrite (p : nat) (d c : list byte) :
  take (length d) (drop p (pwrite p d c)) = d.
Proof.
  apply list_eq. intros i. destruct (decide (i < length d)%nat).
  - rewrite lookup_take_lt, lookup_drop by lia. now apply lookup_pwrite_in.
  - rewrite lookup_take_ge by lia. symmetry. apply lookup_ge_None_2. lia.
Qed.

(** ** Running the patcher *)

Lemma bind_seek {B : Type} (z : Z) (k : unit -> io B) (h : handle) :
  0 <= z -> bind (seek z) k h = k tt (Handle (content h) (Z.to_nat z)).
Proof.
  intros Hz. unfold bind, seek.
  now replace (z <? 0) with false by (symmetry; apply Z.ltb_ge; lia).
Qed.

Lemma bind_read {B : Type} (z : Z) (k : list byte -> io B) (h : handle) :
  0 <= z ->
  bind (read z) k h =
    k (take (Z.to_nat z) (drop (pos h) (content h)))
      (Handle (content h)
         (pos h + length (take (Z.to_nat z) (drop (pos h) (content h))))%nat).
Proof.
  intros Hz. unfold bind, read.
  now replace (z <? 0) with false by (symmetry; apply Z.ltb_ge; lia).
Qed.

Lemma bind_write {B : Type} (d : list byte) (k : unit -> io B) (h : handle) :
  bind (write d) k h =
    k tt (Handle (pwrite (pos h) d (content h)) (pos h + length d)%nat).
Proof. reflexivity. Qed.

Lemma bind_lift_Ok {A B : Type} (a : A) (k : A -> io B) (h : handle) :
  bind (lift (Ok a)) k h = k a h.
Proof. reflexivity. Qed.

Lemma unpack_field (c : list byte) (i : nat) :
  (i + 2 <= length c)%nat ->
  unpack_be_H (take 2 (drop i c)) = Ok (field_be16 c i)
  /\ length (take 2 (drop i c)) = 2%nat.
Proof.
  intros Hi. unfold field_be16.
  destruct (lookup_lt_is_Some_2 c i) as [hi Hhi]; [lia|].
  destruct (lookup_lt_is_Some_2 c (S i)) as [lo Hlo]; [lia|].
  rewrite Hhi, Hlo.
  assert (take 2 (drop i c) = [hi; lo]) as ->; [|done].
  apply list_eq. intros [|[|j]].
  - rewrite lookup_take_lt, lookup_drop, Nat.add_0_r by lia. exact Hhi.
  - rewrite lookup_take_lt, lookup_drop, Nat.add_1_r by lia. exact Hlo.
  - now rewrite lookup_take_ge by lia.
Qed.

Lemma length_crc8_committed (c : list byte) :
  length (crc8_committed c) = (length c `max` 32)%nat.
Proof. unfold crc8_committed. now rewrite length_pwrite. Qed.

Lemma field_crc8_committed (c : list byte) (i : nat) :
  (31 <= length c)%nat -> (S i < 31)%nat ->
  field_be16 (crc8_committed c) i = field_be16 c i.
Proof.
  intros Hc Hi. unfold field_be16, crc8_committed.
  now rewrite !lookup_pwrite_lt by lia.
Qed.

(** The run, case by case: a header that cannot be read, a payload size
    below 4, payload data cut short, and the complete run. *)
Lemma fix_firmware_checksum_eq (c : list byte) :
  fix_firmware_checksum c =
    if (length c <? 31)%nat then (Failed (ValueError msg_header), c)
    else
      let c1 := crc8_committed c in
      if payload_size c <? 4 then (Failed (ValueError msg_payload_size), c1)
      else if negb (Z.of_nat (length (payload_data c1)) =? payload_size c - 4)
      then (Failed (ValueError msg_payload), c1)
      else (Fixed, patched c).
Proof.
  unfold fix_firmware_checksum, patch.
  rewrite bind_seek, bind_read by lia. cbn [pos content].
  change (Z.to_nat 0) with 0%nat. change (Z.to_nat 31) with 31%nat.
  rewrite drop_0. fold (header c).
  assert (length (header c) = (31 `min` length c)%nat) as Hlen
    by apply length_take.
  destruct (Nat.ltb_spec (length c) 31) as [Hc|Hc].
  { replace (Z.of_nat (length (header c)) <? 31) with true
      by (symmetry; apply Z.ltb_lt; lia).
    reflexivity. }
  replace (Z.of_nat (length (header c)) <? 31) with false
    by (symmetry; apply Z.ltb_ge; lia).
  cbv zeta.
  rewrite bind_seek, bytes_of_crc8, bind_lift_Ok, bind_write by lia.
  cbn [pos content]. change (Z.to_nat 31) with 31%nat.
  fold (crc8_committed c). set (c1 := crc8_committed c).
  assert (length c1 = (length c `max` 32)%nat) as Hc1
    by apply length_crc8_committed.
  rewrite bind_seek, bind_read by lia. cbn [pos content].
  change (Z.to_nat 4) with 4%nat. change (Z.to_nat 2) with 2%nat.
  destruct (unpack_field c1 4) as [-> ->]; [lia|].
  rewrite bind_lift_Ok, bind_read by lia. cbn [pos content].
  change (Z.to_nat 2) with 2%nat. change (4 + 2)%nat with 6%nat.
  destruct (unpack_field c1 6) as [-> _]; [lia|].
  rewrite bind_lift_Ok.
  assert (payload_offset c1 = payload_offset c) as Hoff
    by (apply field_crc8_committed; lia).
  assert (payload_size c1 = payload_size c) as Hsize
    by (apply field_crc8_committed; lia).
  fold (payload_offset c1). fold (payload_size c1).
  pose proof (field_be16_range c 4) as Hro. fold (payload_offset c) in Hro.
  pose proof (field_be16_range c 6) as Hrs. fold (payload_size c) in Hrs.
  rewrite Hsize.
  destruct (Z.ltb_spec (payload_size c) 4) as [Hs|Hs]; [reflexivity|].
  rewrite bind_seek, bind_read by lia. cbn [pos content].
  rewrite Hoff. 
  replace (take (Z.to_nat (payload_size c - 4))
             (drop (Z.to_nat (payload_offset c)) c1))
    with (payload_data c1) by (unfold payload_data; now rewrite Hoff, Hsize).
  destruct (negb (Z.of_nat (length (payload_data c1)) =? payload_size c - 4));
    [reflexivity|].
  cbv zeta.
  rewrite bind_seek, pack_crc32, bind_lift_Ok by lia.
  unfold write. cbn [pos content]. reflexivity.
Qed.

Lemma fix_firmware_checksum_view (c : list byte) :
  run_view c (fix_firmware_checksum c).
Proof.
  rewrite fix_firmware_checksum_eq.
  destruct (Nat.ltb_spec (length c) 31); [now constructor|].
  cbv zeta. destruct (Z.ltb_spec (payload_size c) 4); [now constructor|].
  destruct (Z.eqb_spec (Z.of_nat (length (payload_data (crc8_committed c))))
              (payload_size c - 4)); cbn [negb]; now constructor.
Qed.

Lemma lookup_crc8_committed (c : list byte) :
  (31 <= length c)%nat ->
  crc8_committed c !! 31%nat = Some (low_byte (crc8 (header c)))
  /\ (forall i : nat, i <> 31%nat -> crc8_committed c !! i = c !! i).
Proof.
  intros Hc. unfold crc8_committed. split.
  - now rewrite <- (Nat.add_0_r 31), lookup_pwrite_in by (cbn; lia).
  - intros i Hi. destruct (decide (i < 31)%nat).
    + apply lookup_pwrite_lt; lia.
    + apply lookup_pwrite_ge. cbn. lia.
Qed.

Lemma fix_header_short (c : list byte) :
  (length c < 31)%nat ->
  fix_firmware_checksum c = (Failed (ValueError msg_header), c).
Proof.
  intros Hc. rewrite fix_firmware_checksum_eq.
  now replace (length c <? 31)%nat with true by (symmetry; apply Nat.ltb_lt; lia).
Qed.

(** C8: a file shorter than 31 bytes makes the run fail with the
    header-too-small error, and the file keeps every byte. *)
Theorem short_file_untouched (c : list byte) :
  (length c < 31)%nat ->
  fst (fix_firmware_checksum c) = Failed (ValueError msg_header)
  /\ snd (fix_firmware_checksum c) = c.
Proof.
  intros Hc. rewrite fix_header_short by exact Hc. split; reflexivity.
Qed.

(** C7: with a readable header and a declared payload size below 4 the
    run fails with the payload-size error after the CRC-8 of the header
    has been stored at 0x1F; no other byte differs from the input. *)
Theorem crc8_committed_before_validation (c : list byte) :
  (31 <= length c)%nat -> payload_size c < 4 ->
  fst (fix_firmware_checksum c) = Failed (ValueError msg_payload_size)
  /\ byte_at (snd (fix_firmware_checksum c)) 31 = Some (crc8 (header c))
  /\ (forall i : nat, i <> 31%nat ->
        snd (fix_firmware_checksum c) !! i = c !! i).
Proof.
  intros Hc Hs.
  destruct (fix_firmware_checksum_view c) as [Hc'| _ _ |_ Hs' _|_ Hs' _];
    try lia.
  destruct (lookup_crc8_committed c Hc) as [H31 Hother].
  cbn [fst snd]. unfold byte_at. rewrite H31. cbn.
  now rewrite byte_val_crc8.
Qed.

(** ** The file after the CRC-8 is stored *)

Lemma header_crc8_committed (c : list byte) :
  (31 <= length c)%nat -> header (crc8_committed c) = header c.
Proof. intros Hc. unfold header, crc8_committed. apply take_pwrite; lia. Qed.

Lemma crc8_committed_idem (c : list byte) :
  (31 <= length c)%nat -> crc8_committed (crc8_committed c) = crc8_committed c.
Proof.
  intros Hc. unfold crc8_committed at 1.
  rewrite header_crc8_committed by exact Hc. apply pwrite_pwrite.
Qed.

Lemma fix_crc8_committed (c : list byte) :
  (31 <= length c)%nat ->
  fix_firmware_checksum (crc8_committed c) = fix_firmware_checksum c.
Proof.
  intros Hc. rewrite !fix_firmware_checksum_eq.
  pose proof (length_crc8_committed c) as Hlen.
  replace (length (crc8_committed c) <? 31)%nat with false
    by (symmetry; apply Nat.ltb_ge; lia).
  replace (length c <? 31)%nat with false by (symmetry; apply Nat.ltb_ge; lia).
  unfold patched. cbv zeta. rewrite crc8_committed_idem by exact Hc.
  unfold crc32_slot, payload_size, payload_offset.
  now rewrite !field_crc8_committed by lia.
Qed.

(** ** The file after a complete run whose CRC-32 slot starts at 0x20 or
    later *)

Section Patched.
Variable c : list byte.
Hypothesis Hheader : (31 <= length c)%nat.
Hypothesis Hsize : 4 <= payload_size c.
Hypothesis Hdata :
  Z.of_nat (length (payload_data (crc8_committed c))) = payload_size c - 4.
Hypothesis Hslot : 32 <= crc32_slot c.

Lemma patched_lookup_lt (i : nat) :
  (i < 32)%nat -> patched c !! i = crc8_committed c !! i.
Proof.
  intros Hi. apply lookup_pwrite_lt; [lia|].
  rewrite length_crc8_committed. lia.
Qed.

Lemma patched_field (i : nat) :
  (S i < 31)%nat -> field_be16 (patched c) i = field_be16 c i.
Proof.
  intros Hi. rewrite <- (field_crc8_committed c i) by lia.
  unfold field_be16. now rewrite !patched_lookup_lt by lia.
Qed.

Lemma patched_header : header (patched c) = header c.
Proof.
  rewrite <- (header_crc8_committed c) by exact Hheader.
  unfold header. apply take_pwrite; [lia|].
  rewrite length_crc8_committed. lia.
Qed.

Lemma patched_crc8_byte :
  patched c !! 31%nat = Some (low_byte (crc8 (header c))).
Proof.
  rewrite patched_lookup_lt by lia.
  now apply lookup_crc8_committed.
Qed.

Lemma patched_crc8_committed : crc8_committed (patched c) = patched c.
Proof.
  unfold crc8_committed at 1. rewrite patched_header.
  apply pwrite_same. intros i Hi. cbn in Hi.
  replace i with 0%nat by lia. now rewrite Nat.add_0_r, patched_crc8_byte.
Qed.

Lemma patched_payload_data :
  payload_data (patched c) = payload_data (crc8_committed c).
Proof.
  assert (payload_offset (crc8_committed c) = payload_offset c) as Ho1
    by (apply field_crc8_committed; lia).
  assert (payload_size (crc8_committed c) = payload_size c) as Hs1
    by (apply field_crc8_committed; lia).
  assert (payload_offset (patched c) = payload_offset c) as Ho2
    by (apply patched_field; lia).
  assert (payload_size (patched c) = payload_size c) as Hs2
    by (apply patched_field; lia).
  pose proof (field_be16_range c 4) as Hro. fold (payload_offset c) in Hro.
  pose proof Hdata as Hd. unfold payload_data in Hd |- *.
  rewrite Ho1, Hs1 in Hd. rewrite Ho1, Hs1, Ho2, Hs2.
  rewrite length_take, length_drop in Hd.
  apply list_eq. intros i.
  destruct (decide (i < Z.to_nat (payload_size c - 4))%nat).
  - rewrite !lookup_take_lt, !lookup_drop by lia.
    apply lookup_pwrite_lt; unfold crc32_slot; lia.
  - now rewrite !lookup_take_ge by lia.
Qed.

Lemma patched_slot : crc32_slot (patched c) = crc32_slot c.
Proof.
  unfold crc32_slot, payload_offset, payload_size.
  now rewrite !patched_field by lia.
Qed.

Lemma patched_patched : patched (patched c) = patched c.
Proof.
  unfold patched at 1. cbv zeta.
  rewrite patched_crc8_committed, patched_payload_data, patched_slot.
  apply pwrite_pwrite.
Qed.

Lemma fix_patched : fix_firmware_checksum (patched c) = (Fixed, patched c).
Proof.
  rewrite fix_firmware_checksum_eq.
  assert (32 <= length (patched c))%nat as Hlen.
  { etransitivity; [|apply length_pwrite_le].
    rewrite length_crc8_committed. lia. }
  replace (length (patched c) <? 31)%nat with false
    by (symmetry; apply Nat.ltb_ge; lia).
  cbv zeta. rewrite patched_crc8_committed, patched_payload_data.
  assert (payload_size (patched c) = payload_size c) as ->
    by (apply patched_field; lia).
  replace (payload_size c <? 4) with false by (symmetry; apply Z.ltb_ge; lia).
  rewrite Hdata, Z.eqb_refl. cbn [negb].
  now rewrite patched_patched.
Qed.

End Patched.

(** ** The file after a complete run whose CRC-32 slot starts behind the
    payload descriptor *)

Section SlotBeyondDescriptor.
Variable c : list byte.
Hypothesis Hheader : (31 <= length c)%nat.
Hypothesis Hsize : 4 <= payload_size c.
Hypothesis Hdata :
  Z.of_nat (length (payload_data (crc8_committed c))) = payload_size c - 4.
Hypothesis Hslot : 8 <= crc32_slot c.

Lemma descriptor_kept (i : nat) :
  (S i < 8)%nat -> field_be16 (patched c) i = field_be16 c i.
Proof.
  intros Hi. rewrite <- (field_crc8_committed c i) by lia.
  unfold field_be16, patched. cbv zeta.
  now rewrite !lookup_pwrite_lt by (try rewrite length_crc8_committed; lia).
Qed.

Lemma payload_data_kept :
  payload_data (patched c) = payload_data (crc8_committed c).
Proof.
  assert (payload_offset (crc8_committed c) = payload_offset c) as Ho1
    by (apply field_crc8_committed; lia).
  assert (payload_size (crc8_committed c) = payload_size c) as Hs1
    by (apply field_crc8_committed; lia).
  assert (payload_offset (patched c) = payload_offset c) as Ho2
    by (apply descriptor_kept; lia).
  assert (payload_size (patched c) = payload_size c) as Hs2
    by (apply descriptor_kept; lia).
  pose proof (field_be16_range c 4) as Hro. fold (payload_offset c) in Hro.
  pose proof Hdata as Hd. unfold payload_data in Hd |- *.
  rewrite Ho1, Hs1 in Hd. rewrite Ho1, Hs1, Ho2, Hs2.
  rewrite length_take, length_drop in Hd.
  apply list_eq. intros i.
  destruct (decide (i < Z.to_nat (payload_size c - 4))%nat).
  - rewrite !lookup_take_lt, !lookup_drop by lia.
    apply lookup_pwrite_lt; unfold crc32_slot; lia.
  - now rewrite !lookup_take_ge by lia.
Qed.

Lemma slot_kept : crc32_slot (patched c) = crc32_slot c.
Proof.
  unfold crc32_slot, payload_offset, payload_size.
  now rewrite !descriptor_kept by lia.
Qed.

Lemma slot_holds_crc32 :
  take 4 (drop (Z.to_nat (crc32_slot (patched c))) (patched c))
  = le_bytes4 (crc32_defaults (payload_data (patched c))).
Proof.
  rewrite slot_kept, payload_data_kept.
  apply (take_drop_pwrite _
           (le_bytes4 (crc32_defaults (payload_data (crc8_committed c))))).
Qed.

End SlotBeyondDescriptor.

(** ** The file after a complete run whose CRC-32 slot starts at 0x1C or
    later *)

(** From 0x1C on the slot covers the CRC-8 byte or lies behind it, and
    no byte of the header that enters the CRC-8 is below a byte the
    second run reads before it writes the slot again. *)
Section SlotFrom28.
Variable c : list byte.
Hypothesis Hheader : (31 <= length c)%nat.
Hypothesis Hsize : 4 <= payload_size c.
Hypothesis Hdata :
  Z.of_nat (length (payload_data (crc8_committed c))) = payload_size c - 4.
Hypothesis Hslot : 28 <= crc32_slot c.

Lemma length_patched_ge : (32 <= length (patched c))%nat.
Proof.
  etransitivity; [|apply length_pwrite_le].
  rewrite length_crc8_committed. lia.
Qed.

Lemma committed_patched_below (i : nat) :
  (i < Z.to_nat (crc32_slot c))%nat -> (i < length (crc8_committed c))%nat ->
  crc8_committed (patched c) !! i = crc8_committed c !! i.
Proof.
  intros Hi Hlen. pose proof length_patched_ge as Hp.
  destruct (decide (i = 31%nat)) as [->|Hne].
  - rewrite patched_crc8_committed by (auto; lia).
    apply patched_lookup_lt; lia.
  - rewrite (proj2 (lookup_crc8_committed (patched c) ltac:(lia)) i Hne).
    now apply lookup_pwrite_lt.
Qed.

Lemma committed_patched_field (i : nat) :
  (S i < 8)%nat -> field_be16 (crc8_committed (patched c)) i = field_be16 c i.
Proof.
  intros Hi. pose proof length_patched_ge as Hp.
  rewrite field_crc8_committed by lia. apply descriptor_kept; auto; lia.
Qed.

Lemma payload_data_committed_patched :
  payload_data (crc8_committed (patched c)) = payload_data (crc8_committed c).
Proof.
  assert (payload_offset (crc8_committed c) = payload_offset c) as Ho1
    by (apply field_crc8_committed; lia).
  assert (payload_size (crc8_committed c) = payload_size c) as Hs1
    by (apply field_crc8_committed; lia).
  assert (payload_offset (crc8_committed (patched c)) = payload_offset c)
    as Ho2 by (apply committed_patched_field; lia).
  assert (payload_size (crc8_committed (patched c)) = payload_size c)
    as Hs2 by (apply committed_patched_field; lia).
  pose proof (field_be16_range c 4) as Hro. fold (payload_offset c) in Hro.
  pose proof Hdata as Hd. unfold payload_data in Hd |- *.
  rewrite Ho1, Hs1 in Hd. rewrite Ho1, Hs1, Ho2, Hs2.
  rewrite length_take, length_drop in Hd.
  apply list_eq. intros i.
  destruct (decide (i < Z.to_nat (payload_size c - 4))%nat).
  - rewrite !lookup_take_lt, !lookup_drop by lia.
    apply committed_patched_below; unfold crc32_slot; lia.
  - now rewrite !lookup_take_ge by lia.
Qed.

(** Writing the same CRC-32 over the file of the second run gives the
    file of the first run. *)
Lemma slot_rewritten (d : list byte) :
  length d = 4%nat ->
  pwrite (Z.to_nat (crc32_slot c)) d (crc8_committed (patched c))
  = pwrite (Z.to_nat (crc32_slot c)) d (crc8_committed c).
Proof.
  intros Hd. pose proof length_patched_ge as Hp.
  pose proof (length_crc8_committed c) as Hl1.
  pose proof (length_crc8_committed (patched c)) as Hl2.
  assert (d <> []) as Hne by (intros ->; discriminate Hd).
  assert (length (patched c)
          = (length (crc8_committed c)
               `max` (Z.to_nat (crc32_slot c) + 4))%nat) as Hlp.
  { unfold patched. cbv zeta. now rewrite length_pwrite. }
  apply list_eq. intros i. rewrite !lookup_pwrite by exact Hne.
  destruct (decide (i < Z.to_nat (crc32_slot c))%nat) as [Hlt|Hge].
  - destruct (decide (i < length (crc8_committed c))%nat) as [Hin|Hout].
    + rewrite decide_True by lia. now apply committed_patched_below.
    + rewrite decide_True by lia.
      rewrite (proj2 (lookup_crc8_committed (patched c) ltac:(lia)) i)
        by lia.
      unfold patched. cbv zeta. rewrite lookup_pwrite by done.
      now rewrite decide_True, decide_False by lia.
  - destruct (decide (i < Z.to_nat (crc32_slot c) + length d)%nat);
      [reflexivity|].
    rewrite (proj2 (lookup_crc8_committed (patched c) ltac:(lia)) i) by lia.
    unfold patched. cbv zeta. apply lookup_pwrite_ge.
    cbn [length le_bytes4]. lia.
Qed.

Lemma fix_patched_from_28 :
  fix_firmware_checksum (patched c) = (Fixed, patched c).
Proof.
  rewrite fix_firmware_checksum_eq. pose proof length_patched_ge as Hp.
  replace (length (patched c) <? 31)%nat with false
    by (symmetry; apply Nat.ltb_ge; lia).
  cbv zeta. rewrite payload_data_committed_patched.
  assert (payload_size (patched c) = payload_size c) as ->
    by (apply descriptor_kept; auto; lia).
  replace (payload_size c <? 4) with false by (symmetry; apply Z.ltb_ge; lia).
  rewrite Hdata, Z.eqb_refl. cbn [negb]. f_equal.
  unfold patched at 1. cbv zeta.
  rewrite payload_data_committed_patched, slot_kept by (auto; lia).
  now rewrite slot_rewritten.
Qed.

End SlotFrom28.

(** ** Round trip, idempotence and the length of the file *)

(** C3, as the code has it: after a complete run whose CRC-32 slot
    starts at 0x20 or later, the CRC-8 recomputed over bytes [0, 0x1F)
    of the patched file is the byte stored at 0x1F. *)
Theorem header_crc8_roundtrip (c : list byte) :
  fst (fix_firmware_checksum c) = Fixed ->
  32 <= crc32_slot c ->
  byte_at (snd (fix_firmware_checksum c)) 31
  = Some (crc8 (header (snd (fix_firmware_checksum c)))).
Proof.
  intros Hfixed Hslot.
  destruct (fix_firmware_checksum_view c) as [?|? ?|? ? ?|Hc Hs Hd];
    try discriminate Hfixed.
  cbn [snd]. unfold byte_at.
  rewrite patched_crc8_byte, patched_header by assumption.
  cbn. now rewrite byte_val_crc8.
Qed.

Lemma header_crc8_roundtrip_witness :
  byte_at (snd (fix_firmware_checksum image_plain)) 31
  = Some (crc8 (header (snd (fix_firmware_checksum image_plain)))).
Proof.
  apply (header_crc8_roundtrip image_plain); [reflexivity|].
  vm_compute. discriminate.
Defined.

(** C3, as the specification words it, fails: when the slot lies on bytes 0..3
    the header changes after its CRC-8 was stored. *)
Lemma header_crc8_stale :
  fst (fix_firmware_checksum image_slot_on_header) = Fixed
  /\ byte_at (snd (fix_firmware_checksum image_slot_on_header)) 31
     <> Some (crc8 (header (snd (fix_firmware_checksum image_slot_on_header)))).
Proof. split; [reflexivity|]. vm_compute. discriminate. Qed.

(** C4, as the code has it: a second run reports what the first one
    reported and leaves the file of the first run byte for byte,
    provided that a complete first run had its CRC-32 slot at 0x1C or
    later. *)
Theorem patch_idempotent (c : list byte) :
  (fst (fix_firmware_checksum c) = Fixed -> 28 <= crc32_slot c) ->
  fix_firmware_checksum (snd (fix_firmware_checksum c))
  = fix_firmware_checksum c.
Proof.
  intros Hslot.
  destruct (fix_firmware_checksum_view c) as [Hc|Hc Hs|Hc Hs Hd|Hc Hs Hd];
    cbn [fst snd] in *.
  - now apply fix_header_short.
  - rewrite fix_crc8_committed by exact Hc.
    destruct (fix_firmware_checksum_view c) as [?|? ?|? ? ?|? ? ?];
      [lia|reflexivity|lia|lia].
  - rewrite fix_crc8_committed by exact Hc.
    destruct (fix_firmware_checksum_view c) as [?|? ?|? ? ?|? ? ?];
      [lia|lia|reflexivity|congruence].
  - apply fix_patched_from_28; auto.
Qed.

Lemma patch_idempotent_witness :
  fix_firmware_checksum (snd (fix_firmware_checksum image_spanning))
  = fix_firmware_checksum image_spanning.
Proof.
  apply (patch_idempotent image_spanning).
  intros _. vm_compute. discriminate.
Defined.

(** The bound is the least one: with the slot at 0x1B the second run
    stores another byte at 0x1F. *)
Lemma second_run_differs_below_28 :
  fst (fix_firmware_checksum image_slot_at_27) = Fixed
  /\ crc32_slot image_slot_at_27 = 27
  /\ snd (fix_firmware_checksum (snd (fix_firmware_checksum image_slot_at_27)))
     <> snd (fix_firmware_checksum image_slot_at_27).
Proof.
  split; [reflexivity|]. split; [reflexivity|].
  intros H. apply (f_equal (fun l => byte_at l 31)) in H.
  vm_compute in H. discriminate H.
Qed.

(** C4, as the specification words it, fails: when the slot lies on the payload
    descriptor the second run stores another byte at 0x1F. *)
Lemma second_run_differs :
  snd (fix_firmware_checksum (snd (fix_firmware_checksum image_slot_on_descriptor)))
  <> snd (fix_firmware_checksum image_slot_on_descriptor).
Proof.
  intros H. apply (f_equal (fun l => byte_at l 31)) in H.
  vm_compute in H. discriminate H.
Qed.

(** C5, as the specification words it, fails: at a file whose payload data is
    complete and whose CRC-32 slot lies past the end (offset 0x20, size
    8, 0x24 bytes) the run reports success and appends the four CRC-32
    bytes. *)
Lemma slot_past_end_is_written :
  (31 <= length image_no_slot)%nat
  /\ 4 <= payload_size image_no_slot
  /\ Z.of_nat (length image_no_slot)
     < payload_offset image_no_slot + payload_size image_no_slot
  /\ fst (fix_firmware_checksum image_no_slot) <> Failed (ValueError msg_payload)
  /\ drop 36 (snd (fix_firmware_checksum image_no_slot))
     = le_bytes4 (crc32_defaults (replicate 4 "007"%byte)).
Proof.
  split; [vm_compute; lia|]. split; [vm_compute; discriminate|].
  split; [reflexivity|]. split; [vm_compute; discriminate|reflexivity].
Qed.

(** C5, as the code has it: with a readable header and a declared
    payload size of at least 4, the run fails with the payload error
    exactly when payload data is declared and reaches past the end of
    the file, the end being that of the file after the CRC-8 write; the
    file then holds the CRC-8 and no CRC-32.  In every other case,
    among them a slot that alone lies past the end, the run succeeds
    and the slot is written. *)
Theorem payload_error_iff (c : list byte) :
  (31 <= length c)%nat -> 4 <= payload_size c ->
  (fst (fix_firmware_checksum c) = Failed (ValueError msg_payload)
   <-> 4 < payload_size c /\ Z.of_nat (length c `max` 32) < crc32_slot c)
  /\ (fst (fix_firmware_checksum c) = Failed (ValueError msg_payload) ->
      snd (fix_firmware_checksum c) = crc8_committed c)
  /\ (fst (fix_firmware_checksum c) <> Failed (ValueError msg_payload) ->
      fix_firmware_checksum c = (Fixed, patched c)).
Proof.
  intros Hc Hs.
  pose proof (field_be16_range c 4) as Hro. fold (payload_offset c) in Hro.
  pose proof (length_crc8_committed c) as Hlen.
  assert (payload_offset (crc8_committed c) = payload_offset c) as Ho
    by (apply field_crc8_committed; lia).
  assert (payload_size (crc8_committed c) = payload_size c) as Hsz
    by (apply field_crc8_committed; lia).
  destruct (fix_firmware_checksum_view c) as [?|? ?|_ _ Hd|_ _ Hd];
    try lia; cbn [fst snd]; unfold payload_data in Hd;
    rewrite Ho, Hsz, length_take, length_drop in Hd; unfold crc32_slot.
  - split; [split; [lia|reflexivity]|]. split; [reflexivity|congruence].
  - split; [split; [discriminate|lia]|]. split; [discriminate|reflexivity].
Qed.

Lemma payload_error_iff_witness :
  (fst (fix_firmware_checksum image_truncated) = Failed (ValueError msg_payload)
   <-> 4 < payload_size image_truncated
       /\ Z.of_nat (length image_truncated `max` 32) < crc32_slot image_truncated)
  /\ (fst (fix_firmware_checksum image_truncated)
      = Failed (ValueError msg_payload) ->
      snd (fix_firmware_checksum image_truncated)
      = crc8_committed image_truncated)
  /\ (fst (fix_firmware_checksum image_truncated)
      <> Failed (ValueError msg_payload) ->
      fix_firmware_checksum image_truncated = (Fixed, patched image_truncated)).
Proof.
  apply (payload_error_iff image_truncated).
  - vm_compute. lia.
  - vm_compute. discriminate.
Defined.

(** C6, as the code has it: the run never shortens the file and can
    lengthen it.  After a failing run the file has its length of before
    if that is below 31, and otherwise that length or 32 bytes,
    whichever is larger; after a complete run it reaches in addition to
    the end of the CRC-32 slot. *)
Theorem length_after_run (c : list byte) :
  (length c <= length (snd (fix_firmware_checksum c)))%nat
  /\ length (snd (fix_firmware_checksum c))
     = match fst (fix_firmware_checksum c) with
       | Fixed => ((length c `max` 32) `max` Z.to_nat (crc32_slot c + 4))%nat
       | Failed _ =>
           if (length c <? 31)%nat then length c else (length c `max` 32)%nat
       end.
Proof.
  pose proof (length_crc8_committed c) as Hlen.
  pose proof (field_be16_range c 4) as Hro. fold (payload_offset c) in Hro.
  destruct (fix_firmware_checksum_view c) as [Hc|Hc Hs|Hc Hs Hd|Hc Hs Hd];
    cbn [fst snd].
  - replace (length c <? 31)%nat with true
      by (symmetry; apply Nat.ltb_lt; lia).
    split; reflexivity.
  - replace (length c <? 31)%nat with false
      by (symmetry; apply Nat.ltb_ge; lia).
    split; lia.
  - replace (length c <? 31)%nat with false
      by (symmetry; apply Nat.ltb_ge; lia).
    split; lia.
  - unfold patched. cbv zeta. rewrite length_pwrite by done.
    unfold crc32_slot. cbn [length le_bytes4]. split; lia.
Qed.

(** C6, as the specification words it, fails: a file of 31 bytes has 32 bytes
    after the run. *)
Lemma file_of_31_bytes_grows :
  length (snd (fix_firmware_checksum image_31)) <> length image_31.
Proof. vm_compute. discriminate. Qed.

(** ** The failing runs at sample images *)

Lemma short_file_untouched_witness :
  fst (fix_firmware_checksum image_30) = Failed (ValueError msg_header)
  /\ snd (fix_firmware_checksum image_30) = image_30.
Proof. apply (short_file_untouched image_30). vm_compute. lia. Defined.

Lemma crc8_committed_before_validation_witness :
  fst (fix_firmware_checksum image_size3) = Failed (ValueError msg_payload_size)
  /\ byte_at (snd (fix_firmware_checksum image_size3)) 31
     = Some (crc8 (header image_size3))
  /\ (forall i : nat, i <> 31%nat ->
        snd (fix_firmware_checksum image_size3) !! i = image_size3 !! i).
Proof.
  apply (crc8_committed_before_validation image_size3).
  - vm_compute. lia.
  - reflexivity.
Defined.

(** ** The CRC-8 is the textbook CRC-8 of polynomial 0x07 *)

Lemma byte_of_small (x : Z) : 0 <= x < 256 -> byte_val (low_byte x) = x.
Proof.
  intros Hx. rewrite byte_val_low_byte. apply (mask_small 8); lia.
Qed.

(** Eight more zero bits below the register: one round on sixteen bits
    is one round on eight. *)
Lemma crc8_round_textbook (x : Z) :
  0 <= x < 256 ->
  Reference.crc8_round (Z.shiftl x 8) = Z.shiftl (Textbook.crc8_round x) 8.
Proof.
  intros Hx. rewrite <- (byte_of_small x Hx).
  generalize (low_byte x) as b. intros b. destruct b; reflexivity.
Qed.

Lemma textbook_round_range (x : Z) : 0 <= Textbook.crc8_round x < 256.
Proof. unfold Textbook.crc8_round. apply (mask_range 8). lia. Qed.

Lemma textbook_rounds_range (k : nat) (x : Z) :
  0 <= x < 256 -> 0 <= Nat.iter k Textbook.crc8_round x < 256.
Proof.
  intros Hx. destruct k as [|k]; [exact Hx|].
  rewrite Nat.iter_succ. apply textbook_round_range.
Qed.

Lemma crc8_rounds_textbook (k : nat) (x : Z) :
  0 <= x < 256 ->
  Nat.iter k Reference.crc8_round (Z.shiftl x 8)
  = Z.shiftl (Nat.iter k Textbook.crc8_round x) 8.
Proof.
  intros Hx. induction k as [|k IH]; [reflexivity|].
  rewrite !Nat.iter_succ, IH. apply crc8_round_textbook.
  now apply textbook_rounds_range.
Qed.

Lemma textbook_byte_range (c : Z) (b : byte) :
  0 <= c < 256 -> 0 <= Textbook.crc8_byte c b < 256.
Proof.
  intros Hc. apply textbook_rounds_range.
  apply (lxor_range 8); [lia|exact Hc|apply byte_val_range].
Qed.

Lemma crc8_byte_textbook (c : Z) (b : byte) :
  0 <= c < 256 ->
  Reference.crc8_byte (Z.shiftl c 8) b = Z.shiftl (Textbook.crc8_byte c b) 8.
Proof.
  intros Hc. unfold Reference.crc8_byte, Textbook.crc8_byte.
  rewrite <- Z.shiftl_lxor. apply crc8_rounds_textbook.
  apply (lxor_range 8); [lia|exact Hc|apply byte_val_range].
Qed.

Lemma crc8_fold_textbook (data : list byte) (c : Z) :
  0 <= c < 256 ->
  fold_left Reference.crc8_byte data (Z.shiftl c 8)
  = Z.shiftl (fold_left Textbook.crc8_byte data c) 8
  /\ 0 <= fold_left Textbook.crc8_byte data c < 256.
Proof.
  revert c. induction data as [|b data IH]; intros c Hc; [now split|].
  cbn [fold_left]. rewrite crc8_byte_textbook by exact Hc.
  apply IH. now apply textbook_byte_range.
Qed.

(** X1: the 16-bit accumulator of [crc8] always has a zero low byte, and
    its high byte is the register of the textbook CRC-8 with polynomial
    0x07, initial value 0 and no final XOR: [crc8] is that CRC. *)
Theorem crc8_is_textbook (data : list byte) :
  crc8 data = Textbook.crc8 data
  /\ fold_left crc8_byte data 0 = Z.shiftl (crc8 data) 8.
Proof.
  destruct (crc8_fold_textbook data 0 ltac:(lia)) as [Hfold Hr].
  change (Z.shiftl 0 8) with 0 in Hfold.
  assert (crc8 data = Textbook.crc8 data) as He.
  { unfold crc8, Textbook.crc8.
    rewrite crc8_fold_reference, Hfold by lia.
    rewrite Z.shiftr_shiftl_l, Z.shiftl_0_r by lia.
    apply (mask_small 8); [lia|exact Hr]. }
  split; [exact He|].
  rewrite He. unfold Textbook.crc8.
  now rewrite crc8_fold_reference, Hfold by lia.
Qed.

(** X2: zero bytes in front of the data leave the CRC-8 as it is. *)
Theorem crc8_leading_zeros (n : nat) (data : list byte) :
  crc8 (replicate n "000"%byte ++ data) = crc8 data.
Proof.
  unfold crc8. rewrite fold_left_app. do 2 f_equal.
  induction n as [|n IH]; [reflexivity|].
  cbn [replicate fold_left]. exact IH.
Qed.

(** ** Both CRCs are linear over XOR *)

Lemma land_lxor_distr (a b m : Z) :
  Z.land (Z.lxor a b) m = Z.lxor (Z.land a m) (Z.land b m).
Proof.
  apply Z.bits_inj'. intros i _.
  rewrite !Z.lxor_spec, !Z.land_spec, Z.lxor_spec.
  destruct (Z.testbit a i), (Z.testbit b i), (Z.testbit m i); reflexivity.
Qed.

Lemma lxor_interchange (a b c d : Z) :
  Z.lxor (Z.lxor a b) (Z.lxor c d) = Z.lxor (Z.lxor a c) (Z.lxor b d).
Proof.
  apply Z.bits_inj'. intros i _. rewrite !Z.lxor_spec.
  destruct (Z.testbit a i), (Z.testbit b i), (Z.testbit c i), (Z.testbit d i);
    reflexivity.
Qed.

(** The feedback, taken or not, adds up like the deciding bits. *)
Lemma feedback_lxor (k : Z) (p q : bool) (x y : Z) :
  (if xorb p q then Z.lxor (Z.lxor x y) k else Z.lxor x y)
  = Z.lxor (if p then Z.lxor x k else x) (if q then Z.lxor y k else y).
Proof.
  apply Z.bits_inj'. intros i _.
  destruct p, q; cbn [xorb]; rewrite !Z.lxor_spec;
    destruct (Z.testbit x i), (Z.testbit y i), (Z.testbit k i); reflexivity.
Qed.

Lemma byte_val_xor (x y : byte) :
  byte_val (byte_xor x y) = Z.lxor (byte_val x) (byte_val y).
Proof.
  unfold byte_xor. apply byte_of_small.
  apply (lxor_range 8); [lia|apply byte_val_range..].
Qed.

Lemma crc8_round_lxor (x y : Z) :
  crc8_round (Z.lxor x y) = Z.lxor (crc8_round x) (crc8_round y).
Proof.
  unfold crc8_round. change 0x8000 with (2 ^ 15).
  rewrite !truthy_bit, Z.lxor_spec, !double_shiftl, <- Z.shiftl_lxor by lia.
  f_equal. apply feedback_lxor.
Qed.

Lemma crc8_byte_lxor (x y : Z) (a b : byte) :
  crc8_byte (Z.lxor x y) (byte_xor a b)
  = Z.lxor (crc8_byte x a) (crc8_byte y b).
Proof.
  unfold crc8_byte. rewrite byte_val_xor, Z.shiftl_lxor, lxor_interchange.
  rewrite <- land_lxor_distr. f_equal.
  generalize (Z.lxor x (Z.shiftl (byte_val a) 8)) as u.
  generalize (Z.lxor y (Z.shiftl (byte_val b) 8)) as v.
  generalize 8%nat as k. induction k as [|k IH]; intros v u; [reflexivity|].
  now rewrite !Nat.iter_succ, IH, crc8_round_lxor.
Qed.

Lemma crc8_fold_lxor (a b : list byte) (x y : Z) :
  length a = length b ->
  fold_left crc8_byte (bytes_xor a b) (Z.lxor x y)
  = Z.lxor (fold_left crc8_byte a x) (fold_left crc8_byte b y).
Proof.
  revert b x y. induction a as [|a0 a IH]; intros [|b0 b] x y Hlen;
    try discriminate Hlen; [reflexivity|].
  cbn [bytes_xor zip_with fold_left]. rewrite crc8_byte_lxor.
  apply IH. now injection Hlen.
Qed.

(** X3: for byte strings of one length, the CRC-8 of their bytewise XOR
    is the XOR of their CRC-8s. *)
Theorem crc8_lxor (a b : list byte) :
  length a = length b ->
  crc8 (bytes_xor a b) = Z.lxor (crc8 a) (crc8 b).
Proof.
  intros Hlen. unfold crc8.
  change 0 with (Z.lxor 0 0) at 1. rewrite crc8_fold_lxor by exact Hlen.
  now rewrite Z.shiftr_lxor, land_lxor_distr.
Qed.

Lemma crc8_lxor_witness :
  crc8 (bytes_xor ["a"; "b"; "c"]%byte ["x"; "y"; "z"]%byte)
  = Z.lxor (crc8 ["a"; "b"; "c"]%byte) (crc8 ["x"; "y"; "z"]%byte).
Proof. apply crc8_lxor. reflexivity. Defined.

Lemma crc32_round_lxor (poly x y : Z) :
  crc32_round poly (Z.lxor x y)
  = Z.lxor (crc32_round poly x) (crc32_round poly y).
Proof.
  unfold crc32_round. change 0x80000000 with (2 ^ 31).
  rewrite !truthy_bit, Z.lxor_spec, <- land_lxor_distr by lia.
  rewrite Z.shiftl_lxor. f_equal. apply feedback_lxor.
Qed.

Lemma crc32_byte_lxor (poly x y : Z) (a b : byte) :
  crc32_byte poly (Z.lxor x y) (byte_xor a b)
  = Z.lxor (crc32_byte poly x a) (crc32_byte poly y b).
Proof.
  unfold crc32_byte. rewrite byte_val_xor, Z.shiftl_lxor, lxor_interchange.
  generalize (Z.lxor x (Z.shiftl (byte_val a) 24)) as u.
  generalize (Z.lxor y (Z.shiftl (byte_val b) 24)) as v.
  generalize 8%nat as k. induction k as [|k IH]; intros v u; [reflexivity|].
  now rewrite !Nat.iter_succ, IH, crc32_round_lxor.
Qed.

Lemma crc32_fold_lxor (poly : Z) (a b : list byte) (x y : Z) :
  length a = length b ->
  fold_left (crc32_byte poly) (bytes_xor a b) (Z.lxor x y)
  = Z.lxor (fold_left (crc32_byte poly) a x) (fold_left (crc32_byte poly) b y).
Proof.
  revert b x y. induction a as [|a0 a IH]; intros [|b0 b] x y Hlen;
    try discriminate Hlen; [reflexivity|].
  cbn [bytes_xor zip_with fold_left]. rewrite crc32_byte_lxor.
  apply IH. now injection Hlen.
Qed.

(** X4: for byte strings of one length and one polynomial, the CRC-32
    of the bytewise XOR, started from the XOR of two initial values and
    closed with the XOR of two output masks, is the XOR of the two
    CRC-32s; with the defaults, the CRC-32 of an XOR is the XOR of the
    CRC-32s. *)
Theorem crc32_lxor (a b : list byte) (poly i j x y : Z) :
  length a = length b ->
  crc32 (bytes_xor a b) poly (Z.lxor i j) (Z.lxor x y)
  = Z.lxor (crc32 a poly i x) (crc32 b poly j y).
Proof.
  intros Hlen. unfold crc32.
  rewrite crc32_fold_lxor by exact Hlen. apply lxor_interchange.
Qed.

Lemma crc32_lxor_witness :
  crc32 (bytes_xor ["a"; "b"; "c"]%byte ["x"; "y"; "z"]%byte) 0x04C11DB7
    (Z.lxor 0xFFFFFFFF 0) (Z.lxor 0 0xFFFFFFFF)
  = Z.lxor (crc32 ["a"; "b"; "c"]%byte 0x04C11DB7 0xFFFFFFFF 0)
      (crc32 ["x"; "y"; "z"]%byte 0x04C11DB7 0 0xFFFFFFFF).
Proof. apply crc32_lxor. reflexivity. Defined.

(** ** Composition and truncation in the CRC-32 *)

(** X5: the CRC-32 of a concatenation is the CRC-32 of the second part
    started from the CRC-32 of the first part taken without output
    mask. *)
Theorem crc32_app (a b : list byte) (poly init xorout : Z) :
  crc32 (a ++ b) poly init xorout = crc32 b poly (crc32 a poly init 0) xorout.
Proof. unfold crc32. now rewrite fold_left_app, Z.lxor_0_r. Qed.

(** X6: with initial value 0, zero bytes in front of the data leave the
    CRC-32 as it is, whatever the polynomial and the output mask. *)
Theorem crc32_leading_zeros (n : nat) (data : list byte) (poly xorout : Z) :
  crc32 (replicate n "000"%byte ++ data) poly 0 xorout
  = crc32 data poly 0 xorout.
Proof.
  unfold crc32. rewrite fold_left_app. do 2 f_equal.
  induction n as [|n IH]; [reflexivity|].
  cbn [replicate fold_left]. exact IH.
Qed.

Lemma crc32_round_low (poly crc : Z) :
  crc32_round poly crc
  = crc32_round (Z.land poly 0xFFFFFFFF) (Z.land crc 0xFFFFFFFF).
Proof.
  unfold crc32_round. change 0x80000000 with (2 ^ 31).
  change 0xFFFFFFFF with (Z.ones 32).
  rewrite !truthy_bit, mask_testbit by lia.
  replace (31 <? 32) with true by reflexivity. rewrite andb_true_r.
  assert (Z.land (Z.shiftl (Z.land crc (Z.ones 32)) 1) (Z.ones 32)
          = Z.land (Z.shiftl crc 1) (Z.ones 32)) as Hs.
  { apply Z.bits_inj'. intros i Hi. rewrite !mask_testbit by lia.
    destruct (Z.ltb_spec i 32); [|now rewrite !andb_false_r].
    rewrite !Z.shiftl_spec, mask_testbit by lia.
    replace (i - 1 <? 32) with true by (symmetry; apply Z.ltb_lt; lia).
    now rewrite andb_true_r. }
  destruct (Z.testbit crc 31).
  - rewrite !land_lxor_distr, Hs. f_equal.
    apply Z.bits_inj'. intros i Hi. rewrite !mask_testbit by lia.
    now destruct (Z.testbit poly i), (i <? 32).
  - now rewrite Hs.
Qed.

Lemma mask_idem (x m : Z) : Z.land (Z.land x m) m = Z.land x m.
Proof. now rewrite <- Z.land_assoc, Z.land_diag. Qed.

Lemma crc32_round_poly_low (poly crc : Z) :
  crc32_round poly crc = crc32_round (Z.land poly 0xFFFFFFFF) crc.
Proof.
  rewrite crc32_round_low.
  rewrite (crc32_round_low (Z.land poly 0xFFFFFFFF) crc).
  now rewrite mask_idem.
Qed.

Lemma crc32_round_crc_low (poly crc : Z) :
  crc32_round poly crc = crc32_round poly (Z.land crc 0xFFFFFFFF).
Proof.
  rewrite crc32_round_low.
  rewrite (crc32_round_low poly (Z.land crc 0xFFFFFFFF)).
  now rewrite mask_idem.
Qed.

Lemma crc32_byte_poly_low (poly crc : Z) (c : byte) :
  crc32_byte poly crc c = crc32_byte (Z.land poly 0xFFFFFFFF) crc c.
Proof.
  unfold crc32_byte.
  generalize (Z.lxor crc (Z.shiftl (byte_val c) 24)) as u.
  generalize 8%nat as k. induction k as [|k IH]; intros u; [reflexivity|].
  now rewrite !Nat.iter_succ, IH, <- crc32_round_poly_low.
Qed.

Lemma crc32_byte_crc_low (poly crc : Z) (c : byte) :
  crc32_byte poly crc c = crc32_byte poly (Z.land crc 0xFFFFFFFF) c.
Proof.
  unfold crc32_byte. change 8%nat with (S 7). generalize 7%nat as k. intros k.
  rewrite !Nat.iter_succ_r. f_equal. rewrite crc32_round_crc_low.
  rewrite (crc32_round_crc_low poly (Z.lxor (Z.land crc 0xFFFFFFFF) _)).
  f_equal. now rewrite !land_lxor_distr, mask_idem.
Qed.

(** X7: on a sequence that is not empty only the low 32 bits of the
    polynomial and of the initial value enter the CRC-32. *)
Theorem crc32_low_bits (b : byte) (data : list byte) (poly init xorout : Z) :
  crc32 (b :: data) poly init xorout
  = crc32 (b :: data) (Z.land poly 0xFFFFFFFF) (Z.land init 0xFFFFFFFF) xorout.
Proof.
  unfold crc32. cbn [fold_left]. f_equal.
  rewrite (crc32_byte_crc_low poly init b), crc32_byte_poly_low.
  generalize (crc32_byte (Z.land poly 0xFFFFFFFF) (Z.land init 0xFFFFFFFF) b).
  induction data as [|c data IH]; intros crc; [reflexivity|].
  cbn [fold_left]. now rewrite crc32_byte_poly_low, IH.
Qed.

(** ** How a run can end, and what it leaves alone *)

(** X8: whatever the file, a run ends with the success report or with
    one of the three size errors; the conversions and seeks on the way
    never raise. *)
Theorem run_reports (c : list byte) :
  fst (fix_firmware_checksum c) = Fixed
  \/ fst (fix_firmware_checksum c) = Failed (ValueError msg_header)
  \/ fst (fix_firmware_checksum c) = Failed (ValueError msg_payload_size)
  \/ fst (fix_firmware_checksum c) = Failed (ValueError msg_payload).
Proof.
  destruct (fix_firmware_checksum_view c); cbn [fst]; auto.
Qed.

Lemma length_payload_data_committed (c : list byte) :
  (31 <= length c)%nat ->
  length (payload_data (crc8_committed c))
  = (Z.to_nat (payload_size c - 4)
       `min` ((length c `max` 32) - Z.to_nat (payload_offset c)))%nat.
Proof.
  intros Hc. unfold payload_data.
  rewrite length_take, length_drop, length_crc8_committed.
  unfold payload_offset, payload_size.
  now rewrite !field_crc8_committed by lia.
Qed.

(** X9: a run succeeds exactly when the header can be read, the
    declared payload size is at least 4 and the payload data lies within
    the file as it is after the CRC-8 write (no data at all, or a slot
    that starts at or before the end). *)
Theorem fixed_iff (c : list byte) :
  fst (fix_firmware_checksum c) = Fixed
  <-> (31 <= length c)%nat /\ 4 <= payload_size c
      /\ (payload_size c = 4
          \/ crc32_slot c <= Z.of_nat (length c `max` 32)).
Proof.
  pose proof (field_be16_range c 4) as Hro. fold (payload_offset c) in Hro.
  destruct (fix_firmware_checksum_view c) as [Hc|Hc Hs|Hc Hs Hd|Hc Hs Hd];
    cbn [fst]; try rewrite length_payload_data_committed in Hd by exact Hc;
    unfold crc32_slot;
    (split; [intros H; try discriminate H|intros H]); try lia.
  reflexivity.
Qed.

(** X10: whatever the file and however the run ends, a byte of the input
    that is neither at 0x1F nor in the four places of the declared
    CRC-32 slot is found unchanged at its offset afterwards. *)
Theorem run_frame (c : list byte) (i : nat) (x : byte) :
  c !! i = Some x -> i <> 31%nat ->
  Z.of_nat i < crc32_slot c \/ crc32_slot c + 4 <= Z.of_nat i ->
  snd (fix_firmware_checksum c) !! i = Some x.
Proof.
  intros Hx H31 Hslot. pose proof (lookup_lt_Some _ _ _ Hx) as Hi.
  pose proof (field_be16_range c 4) as Hro. fold (payload_offset c) in Hro.
  destruct (fix_firmware_checksum_view c) as [Hc|Hc Hs|Hc Hs Hd|Hc Hs Hd];
    cbn [snd]; [exact Hx| | |].
  - now rewrite (proj2 (lookup_crc8_committed c Hc)).
  - now rewrite (proj2 (lookup_crc8_committed c Hc)).
  - rewrite <- Hx, <- (proj2 (lookup_crc8_committed c Hc) i H31).
    unfold patched. cbv zeta. unfold crc32_slot in Hslot |- *.
    destruct Hslot as [Hlt|Hge].
    + apply lookup_pwrite_lt; [lia|]. rewrite length_crc8_committed. lia.
    + apply lookup_pwrite_ge. cbn [length le_bytes4]. lia.
Qed.

Lemma run_frame_witness :
  snd (fix_firmware_checksum image_spanning) !! 20%nat = Some "005"%byte.
Proof.
  apply (run_frame image_spanning 20 "005"%byte).
  - reflexivity.
  - discriminate.
  - left. vm_compute. reflexivity.
Defined.

(** ** The payload CRC-32 of the patched file *)


(** X11: after a complete run whose CRC-32 slot starts at offset 8 or
    later, so that it does not lie on the payload descriptor, the
    patched file declares the payload it declared before, and the CRC-32
    recomputed over its payload data is what its slot holds, least
    significant byte first. *)
Theorem payload_crc32_roundtrip (c : list byte) :
  fst (fix_firmware_checksum c) = Fixed ->
  8 <= crc32_slot c ->
  let out := snd (fix_firmware_checksum c) in
  payload_offset out = payload_offset c
  /\ payload_size out = payload_size c
  /\ take 4 (drop (Z.to_nat (crc32_slot out)) out)
     = le_bytes4 (crc32_defaults (payload_data out)).
Proof.
  intros Hfixed Hslot.
  destruct (fix_firmware_checksum_view c) as [?|? ?|? ? ?|Hc Hs Hd];
    try discriminate Hfixed.
  cbn [snd]. cbv zeta. split; [|split].
  - apply descriptor_kept; auto; lia.
  - apply descriptor_kept; auto; lia.
  - now apply slot_holds_crc32.
Qed.

Lemma payload_crc32_roundtrip_witness :
  let out := snd (fix_firmware_checksum image_spanning) in
  payload_offset out = payload_offset image_spanning
  /\ payload_size out = payload_size image_spanning
  /\ take 4 (drop (Z.to_nat (crc32_slot out)) out)
     = le_bytes4 (crc32_defaults (payload_data out)).
Proof.
  apply (payload_crc32_roundtrip image_spanning); [reflexivity|].
  vm_compute. discriminate.
Defined.

(** X12: a file that holds its declared payload, slot included, with the
    slot starting at 0x20 or later, is repaired completely: the run
    reports success, the file keeps its length and its payload
    descriptor, the CRC-8 recomputed over bytes [0, 0x1F) is the byte at
    0x1F, and the CRC-32 recomputed over the payload data is what the
    slot holds. *)
Theorem well_formed_image_repaired (c : list byte) :
  4 <= payload_size c -> 32 <= crc32_slot c ->
  payload_offset c + payload_size c <= Z.of_nat (length c) ->
  let out := snd (fix_firmware_checksum c) in
  fst (fix_firmware_checksum c) = Fixed
  /\ length out = length c
  /\ payload_offset out = payload_offset c
  /\ payload_size out = payload_size c
  /\ byte_at out 31 = Some (crc8 (header out))
  /\ take 4 (drop (Z.to_nat (crc32_slot out)) out)
     = le_bytes4 (crc32_defaults (payload_data out)).
Proof.
  intros Hs Hslot Hend.
  pose proof (field_be16_range c 4) as Hro. fold (payload_offset c) in Hro.
  assert (36 <= length c)%nat as Hc by (unfold crc32_slot in Hslot; lia).
  destruct (fix_firmware_checksum_view c) as [?|? ?|? ? Hd|_ _ Hd];
    try lia.
  { rewrite length_payload_data_committed in Hd by lia.
    unfold crc32_slot in Hslot. lia. }
  cbn [fst snd]. cbv zeta.
  split; [reflexivity|]. split.
  { unfold patched. cbv zeta. rewrite length_pwrite by done.
    rewrite length_crc8_committed. cbn [length le_bytes4].
    unfold crc32_slot in *. lia. }
  split; [apply descriptor_kept; auto; lia|].
  split; [apply descriptor_kept; auto; lia|].
  split.
  - unfold byte_at. rewrite patched_crc8_byte, patched_header by (auto; lia).
    cbn. now rewrite byte_val_crc8.
  - apply slot_holds_crc32; auto; lia.
Qed.

Lemma well_formed_image_repaired_witness :
  let out := snd (fix_firmware_checksum image_plain) in
  fst (fix_firmware_checksum image_plain) = Fixed
  /\ length out = length image_plain
  /\ payload_offset out = payload_offset image_plain
  /\ payload_size out = payload_size image_plain
  /\ byte_at out 31 = Some (crc8 (header out))
  /\ take 4 (drop (Z.to_nat (crc32_slot out)) out)
     = le_bytes4 (crc32_defaults (payload_data out)).
Proof.
  apply (well_formed_image_repaired image_plain);
    vm_compute; discriminate.
Defined.

(** ** The command line *)

(** X13: whatever the arguments, [main] creates and removes no file and
    leaves every file other than the one named by its argument as it
    is; with an argument count other than one it changes no file at all,
    prints the usage line and exits with status 1. *)
Theorem main_frame (open_error : string -> exn) (argv : list string)
    (files : gmap string (list byte)) :
  let files' := snd (main open_error argv files) in
  dom files' = dom files
  /\ (forall q : string, argv !! 1%nat <> Some q -> files' !! q = files !! q)
  /\ (length argv <> 2%nat ->
      main open_error argv files = ([usage], 1, files)).
Proof.
  destruct argv as [|prog [|file_path [|extra argv]]];
    try (cbn; split; [reflexivity|split; [reflexivity|reflexivity]]).
  cbn [main]. unfold fix_firmware_checksum_path.
  destruct (files !! file_path) as [file|] eqn:Hfile.
  - destruct (fix_firmware_checksum file) as [r file'].
    cbn [snd]. split; [|split].
    + apply dom_insert_lookup_L. now rewrite Hfile.
    + intros q Hq. apply lookup_insert_ne. intros ->. now apply Hq.
    + intros Hlen. now contradiction Hlen.
  - cbn [snd]. split; [reflexivity|split; [reflexivity|]].
    intros Hlen. now contradiction Hlen.
Qed.


(** On an output that accepts every line the process behaves as
    [main] says. *)
Lemma main_console_total (open_error : string -> exn) (argv : list string)
    (files : gmap string (list byte)) :
  main_console open_error (fun _ => None) argv files
  = main open_error argv files.
Proof.
  destruct argv as [|prog [|file_path [|extra argv]]]; try reflexivity.
  cbn [main main_console].
  unfold fix_firmware_checksum_console, fix_firmware_checksum_path, print_line.
  destruct (files !! file_path) as [file|]; [|reflexivity].
  destruct (fix_firmware_checksum file) as [[|e] file']; reflexivity.
Qed.


(** ** A change confined to one byte changes the checksums *)

Lemma byte_val_inj (x y : byte) : byte_val x = byte_val y -> x = y.
Proof.
  unfold byte_val. intros H. apply N2Z.inj in H.
  pose proof (Byte.of_to_N x) as Hx. rewrite H, Byte.of_to_N in Hx.
  now injection Hx.
Qed.

Lemma byte_xor_diag (x : byte) : byte_xor x x = "000"%byte.
Proof. unfold byte_xor. now rewrite Z.lxor_nilpotent. Qed.

Lemma byte_xor_nonzero (x y : byte) : x <> y -> byte_val (byte_xor x y) <> 0.
Proof.
  intros Hne H. rewrite byte_val_xor in H.
  apply Z.lxor_eq in H. now apply Hne, byte_val_inj.
Qed.

Lemma bytes_xor_diag (l : list byte) :
  bytes_xor l l = replicate (length l) "000"%byte.
Proof.
  induction l as [|x l IH]; [reflexivity|].
  cbn [bytes_xor zip_with length replicate]. rewrite byte_xor_diag.
  f_equal. exact IH.
Qed.

(** The XOR of two strings that differ in one place: zeros around the
    XOR of the two bytes. *)
Lemma bytes_xor_single (pre post : list byte) (x y : byte) :
  bytes_xor (pre ++ x :: post) (pre ++ y :: post)
  = replicate (length pre) "000"%byte
      ++ byte_xor x y :: replicate (length post) "000"%byte.
Proof.
  unfold bytes_xor. rewrite zip_with_app by reflexivity.
  cbn [zip_with]. fold (bytes_xor pre pre). fold (bytes_xor post post).
  now rewrite !bytes_xor_diag.
Qed.

Lemma textbook_zero_byte (z : Z) :
  0 <= z < 256 -> z <> 0 -> Textbook.crc8_byte z "000"%byte <> 0.
Proof.
  intros Hz. rewrite <- (byte_of_small z Hz).
  generalize (low_byte z) as b. intros b.
  destruct b; vm_compute; congruence.
Qed.

Lemma textbook_first_byte (d : byte) :
  byte_val d <> 0 -> Textbook.crc8_byte 0 d <> 0.
Proof. destruct d; vm_compute; congruence. Qed.

Lemma textbook_zeros_nonzero (m : nat) (z : Z) :
  0 <= z < 256 -> z <> 0 ->
  fold_left Textbook.crc8_byte (replicate m "000"%byte) z <> 0.
Proof.
  revert z. induction m as [|m IH]; intros z Hz Hnz; [exact Hnz|].
  cbn [replicate fold_left].
  apply IH; [now apply textbook_byte_range|now apply textbook_zero_byte].
Qed.

Lemma textbook_zeros_prefix (k : nat) (data : list byte) :
  fold_left Textbook.crc8_byte (replicate k "000"%byte ++ data) 0
  = fold_left Textbook.crc8_byte data 0.
Proof.
  rewrite fold_left_app. f_equal.
  induction k as [|k IH]; [reflexivity|].
  cbn [replicate fold_left]. exact IH.
Qed.

Lemma crc8_fold_shifted (data : list byte) :
  fold_left crc8_byte data 0 = Z.shiftl (Textbook.crc8 data) 8.
Proof.
  destruct (crc8_fold_textbook data 0 ltac:(lia)) as [Hfold _].
  now rewrite crc8_fold_reference by lia.
Qed.

(** X15: two byte strings that differ in exactly one byte have different
    CRC-8s: no change confined to one byte of the header goes
    unnoticed. *)
Theorem crc8_detects_one_byte (pre post : list byte) (x y : byte) :
  x <> y -> crc8 (pre ++ x :: post) <> crc8 (pre ++ y :: post).
Proof.
  intros Hne Heq.
  assert (fold_left crc8_byte (pre ++ x :: post) 0
          = fold_left crc8_byte (pre ++ y :: post) 0) as Hfold.
  { rewrite !crc8_fold_shifted. f_equal.
    revert Heq. unfold crc8. rewrite !crc8_fold_shifted.
    rewrite !Z.shiftr_shiftl_l, !Z.shiftl_0_r by lia.
    destruct (crc8_fold_textbook (pre ++ x :: post) 0 ltac:(lia)) as [_ Hx].
    destruct (crc8_fold_textbook (pre ++ y :: post) 0 ltac:(lia)) as [_ Hy].
    unfold Textbook.crc8.
    now rewrite !(mask_small 8) by (assumption || lia). }
  assert (fold_left crc8_byte
            (bytes_xor (pre ++ x :: post) (pre ++ y :: post)) 0 = 0) as Hzero.
  { change 0 with (Z.lxor 0 0) at 1.
    rewrite crc8_fold_lxor by (rewrite !length_app; reflexivity).
    rewrite Hfold. apply Z.lxor_nilpotent. }
  rewrite bytes_xor_single, crc8_fold_shifted in Hzero.
  apply Z.shiftl_eq_0_iff in Hzero; [|lia].
  revert Hzero. unfold Textbook.crc8. rewrite textbook_zeros_prefix.
  cbn [fold_left]. apply textbook_zeros_nonzero.
  - apply textbook_byte_range. lia.
  - apply textbook_first_byte. now apply byte_xor_nonzero.
Qed.

Lemma crc8_detects_one_byte_witness :
  crc8 (["a"; "b"] ++ "c" :: ["d"])%byte <> crc8 (["a"; "b"] ++ "x" :: ["d"])%byte.
Proof. apply crc8_detects_one_byte. discriminate. Defined.

Lemma crc32_round_nonzero (poly v : Z) :
  Z.odd poly = true -> 0 <= v < 2 ^ 32 -> v <> 0 -> crc32_round poly v <> 0.
Proof.
  intros Hp Hv Hnz H0. apply Hnz. clear Hnz.
  unfold crc32_round in H0. change 0x80000000 with (2 ^ 31) in H0.
  change 0xFFFFFFFF with (Z.ones 32) in H0. rewrite truthy_bit in H0 by lia.
  assert (forall i, 0 <= i < 32 ->
            Z.testbit (if Z.testbit v 31
                       then Z.lxor (Z.shiftl v 1) poly
                       else Z.shiftl v 1) i = false) as Hbits.
  { intros i Hi. apply (f_equal (fun z => Z.testbit z i)) in H0.
    rewrite mask_testbit, Z.bits_0 in H0 by lia.
    replace (i <? 32) with true in H0 by (symmetry; apply Z.ltb_lt; lia).
    now rewrite andb_true_r in H0. }
  destruct (Z.testbit v 31) eqn:Htop.
  - specialize (Hbits 0 ltac:(lia)).
    rewrite Z.lxor_spec, Z.shiftl_spec_low, Z.bit0_odd, Hp in Hbits by lia.
    discriminate Hbits.
  - apply Z.bits_inj'. intros i Hi. rewrite Z.bits_0.
    destruct (Z.ltb_spec i 31) as [Hlt|Hge].
    + specialize (Hbits (i + 1) ltac:(lia)).
      rewrite Z.shiftl_spec in Hbits by lia.
      now replace (i + 1 - 1) with i in Hbits by lia.
    + destruct (Z.eq_dec i 31) as [->|Hne]; [exact Htop|].
      rewrite <- (mask_small 32 v) by lia. rewrite mask_testbit by lia.
      replace (i <? 32) with false by (symmetry; apply Z.ltb_ge; lia).
      apply andb_false_r.
Qed.

Lemma crc32_rounds_nonzero (poly : Z) (k : nat) (v : Z) :
  Z.odd poly = true -> 0 <= v < 2 ^ 32 -> v <> 0 ->
  0 <= Nat.iter k (crc32_round poly) v < 2 ^ 32
  /\ Nat.iter k (crc32_round poly) v <> 0.
Proof.
  intros Hp Hv Hnz. induction k as [|k [IHr IHn]]; [now split|].
  rewrite Nat.iter_succ. split; [apply crc32_round_range|].
  now apply crc32_round_nonzero.
Qed.

Lemma crc32_zeros_nonzero (poly : Z) (m : nat) (z : Z) :
  Z.odd poly = true -> 0 <= z < 2 ^ 32 -> z <> 0 ->
  fold_left (crc32_byte poly) (replicate m "000"%byte) z <> 0.
Proof.
  intros Hp. revert z. induction m as [|m IH]; intros z Hz Hnz; [exact Hnz|].
  cbn [replicate fold_left].
  apply IH; [apply crc32_byte_range|].
  unfold crc32_byte. change (Z.shiftl (byte_val "000") 24) with 0.
  rewrite Z.lxor_0_r. now apply crc32_rounds_nonzero.
Qed.

Lemma crc32_zeros_prefix (poly : Z) (k : nat) (data : list byte) :
  fold_left (crc32_byte poly) (replicate k "000"%byte ++ data) 0
  = fold_left (crc32_byte poly) data 0.
Proof.
  rewrite fold_left_app. f_equal.
  induction k as [|k IH]; [reflexivity|].
  cbn [replicate fold_left]. exact IH.
Qed.

(** X16: with a polynomial that is odd, as the default 0x04C11DB7 is,
    two byte strings that differ in exactly one byte have different
    CRC-32s, whatever the initial value and the output mask. *)
Theorem crc32_detects_one_byte (pre post : list byte) (x y : byte)
    (poly init xorout : Z) :
  Z.odd poly = true -> x <> y ->
  crc32 (pre ++ x :: post) poly init xorout
  <> crc32 (pre ++ y :: post) poly init xorout.
Proof.
  intros Hp Hne Heq. unfold crc32 in Heq.
  set (F1 := fold_left (crc32_byte poly) (pre ++ x :: post) init) in *.
  set (F2 := fold_left (crc32_byte poly) (pre ++ y :: post) init) in *.
  assert (Z.lxor F1 F2 = 0) as Hsame.
  { transitivity (Z.lxor (Z.lxor F1 xorout) (Z.lxor F2 xorout)).
    - now rewrite lxor_interchange, Z.lxor_nilpotent, Z.lxor_0_r.
    - rewrite Heq. apply Z.lxor_nilpotent. }
  subst F1 F2.
  rewrite <- crc32_fold_lxor in Hsame by (rewrite !length_app; reflexivity).
  rewrite Z.lxor_nilpotent, bytes_xor_single, crc32_zeros_prefix in Hsame.
  revert Hsame. cbn [fold_left]. apply crc32_zeros_nonzero.
  - exact Hp.
  - apply crc32_byte_range.
  - unfold crc32_byte. rewrite Z.lxor_0_l.
    pose proof (byte_val_range (byte_xor x y)) as Hr.
    pose proof (byte_xor_nonzero x y Hne) as Hnz.
    apply crc32_rounds_nonzero; [exact Hp| |]; rewrite Z.shiftl_mul_pow2; lia.
Qed.

Lemma crc32_detects_one_byte_witness :
  crc32 (["a"; "b"] ++ "c" :: ["d"])%byte 0x04C11DB7 0 0
  <> crc32 (["a"; "b"] ++ "x" :: ["d"])%byte 0x04C11DB7 0 0.
Proof. apply crc32_detects_one_byte; [reflexivity|discriminate]. Defined.

(** ** What the CRC-32 is computed over *)

Lemma crc32_fold_one_byte (poly init : Z) (pre post : list byte) (x y : byte) :
  Z.odd poly = true -> x <> y ->
  fold_left (crc32_byte poly) (pre ++ x :: post) init
  <> fold_left (crc32_byte poly) (pre ++ y :: post) init.
Proof.
  intros Hp Hne Heq.
  assert (fold_left (crc32_byte poly)
            (bytes_xor (pre ++ x :: post) (pre ++ y :: post)) (Z.lxor init init)
          = 0) as Hzero.
  { rewrite crc32_fold_lxor by (rewrite !length_app; reflexivity).
    rewrite Heq. apply Z.lxor_nilpotent. }
  rewrite Z.lxor_nilpotent, bytes_xor_single, crc32_zeros_prefix in Hzero.
  revert Hzero. cbn [fold_left]. apply crc32_zeros_nonzero.
  - exact Hp.
  - apply crc32_byte_range.
  - unfold crc32_byte. rewrite Z.lxor_0_l.
    pose proof (byte_val_range (byte_xor x y)) as Hr.
    pose proof (byte_xor_nonzero x y Hne) as Hnz.
    apply crc32_rounds_nonzero; [exact Hp| |]; rewrite Z.shiftl_mul_pow2; lia.
Qed.

Lemma low_byte_bits (u v k i : Z) :
  low_byte (Z.shiftr u k) = low_byte (Z.shiftr v k) ->
  0 <= k -> k <= i < k + 8 -> Z.testbit u i = Z.testbit v i.
Proof.
  intros H Hk Hi. apply (f_equal byte_val) in H.
  rewrite !byte_val_low_byte in H.
  apply (f_equal (fun z => Z.testbit z (i - k))) in H.
  change 0xFF with (Z.ones 8) in H.
  rewrite !mask_testbit, !Z.shiftr_spec in H by lia.
  replace (i - k <? 8) with true in H by (symmetry; apply Z.ltb_lt; lia).
  rewrite !andb_true_r in H. now replace (i - k + k) with i in H by lia.
Qed.

(** Four little-endian bytes determine the 32-bit value. *)
Lemma le_bytes4_inj (u v : Z) :
  0 <= u < 2 ^ 32 -> 0 <= v < 2 ^ 32 -> le_bytes4 u = le_bytes4 v -> u = v.
Proof.
  intros Hu Hv H. unfold le_bytes4 in H.
  rewrite <- (Z.shiftr_0_r u), <- (Z.shiftr_0_r v) in H at 1.
  injection H as H0 H1 H2 H3.
  apply Z.bits_inj'. intros i Hi.
  destruct (Z.ltb_spec i 8); [now apply (low_byte_bits u v 0)|].
  destruct (Z.ltb_spec i 16); [now apply (low_byte_bits u v 8)|].
  destruct (Z.ltb_spec i 24); [now apply (low_byte_bits u v 16)|].
  destruct (Z.ltb_spec i 32); [now apply (low_byte_bits u v 24)|].
  rewrite <- (mask_small 32 u), <- (mask_small 32 v) by lia.
  rewrite !mask_testbit by lia.
  replace (i <? 32) with false by (symmetry; apply Z.ltb_ge; lia).
  now rewrite !andb_false_r.
Qed.

(** Two lists that agree everywhere but at one place. *)
Lemma split_at_difference (l l' : list byte) (a : nat) (x x' : byte) :
  l !! a = Some x -> l' !! a = Some x' ->
  (forall j : nat, j <> a -> l !! j = l' !! j) ->
  l = take a l ++ x :: drop (S a) l /\ l' = take a l ++ x' :: drop (S a) l.
Proof.
  intros Hx Hx' Hsame. split; [symmetry; now apply take_drop_middle|].
  rewrite <- (take_drop_middle l' a x' Hx') at 1. f_equal; [|f_equal].
  - apply list_eq. intros j. destruct (decide (j < a)%nat).
    + rewrite !lookup_take_lt by lia. symmetry. apply Hsame. lia.
    + now rewrite !lookup_take_ge by lia.
  - apply list_eq. intros j. rewrite !lookup_drop. symmetry. apply Hsame. lia.
Qed.

(** C10: after a complete run whose payload data contains offset 0x1F,
    the slot holds the CRC-32 of payload data read from the file in
    which 0x1F already carries the new CRC-8: that byte of the data is
    the CRC-8 of the header, every other byte is the byte of the input
    file.  The slot does not hold the CRC-32 of the payload data of the
    input file: whenever the byte at 0x1F of the input differs from the
    new CRC-8, the two CRC-32s differ. *)
Theorem crc32_covers_committed_crc8 (c : list byte) :
  fst (fix_firmware_checksum c) = Fixed ->
  payload_offset c <= 31 < payload_offset c + payload_size c - 4 ->
  let data := payload_data (crc8_committed c) in
  let at_1f := (31 - Z.to_nat (payload_offset c))%nat in
  let slot :=
    take 4 (drop (Z.to_nat (crc32_slot c)) (snd (fix_firmware_checksum c))) in
  slot = le_bytes4 (crc32_defaults data)
  /\ byte_val <$> data !! at_1f = Some (crc8 (header c))
  /\ (forall j : nat, j <> at_1f -> data !! j = payload_data c !! j)
  /\ (forall x : byte, c !! 31%nat = Some x -> byte_val x <> crc8 (header c) ->
        slot <> le_bytes4 (crc32_defaults (payload_data c))).
Proof.
  intros Hfixed Hin data at_1f slot.
  pose proof (field_be16_range c 4) as Hro. fold (payload_offset c) in Hro.
  destruct (fix_firmware_checksum_view c) as [?|? ?|? ? ?|Hc Hs Hd];
    try discriminate Hfixed.
  destruct (lookup_crc8_committed c Hc) as [H31 Hother].
  assert (payload_offset (crc8_committed c) = payload_offset c) as Ho
    by (apply field_crc8_committed; lia).
  assert (payload_size (crc8_committed c) = payload_size c) as Hsz
    by (apply field_crc8_committed; lia).
  assert (slot = le_bytes4 (crc32_defaults data)) as Hslot.
  { subst slot. cbn [snd].
    apply (take_drop_pwrite _ (le_bytes4 (crc32_defaults data))). }
  assert (data !! at_1f = Some (low_byte (crc8 (header c)))) as Hnew.
  { subst data at_1f. unfold payload_data. rewrite Ho, Hsz.
    rewrite lookup_take_lt, lookup_drop by lia.
    now replace (Z.to_nat (payload_offset c)
                 + (31 - Z.to_nat (payload_offset c)))%nat
      with 31%nat by lia. }
  assert (forall j : nat, j <> at_1f -> data !! j = payload_data c !! j)
    as Hrest.
  { intros j Hj. subst data at_1f. unfold payload_data. rewrite Ho, Hsz.
    destruct (decide (j < Z.to_nat (payload_size c - 4))%nat).
    - rewrite !lookup_take_lt, !lookup_drop by lia. apply Hother. lia.
    - now rewrite !lookup_take_ge by lia. }
  split; [exact Hslot|]. split; [|split; [exact Hrest|]].
  - rewrite Hnew. cbn. now rewrite byte_val_crc8.
  - intros x Hx Hold Hsame. rewrite Hslot in Hsame.
    apply le_bytes4_inj in Hsame; try apply crc32_defaults_range.
    assert (payload_data c !! at_1f = Some x) as Horig.
    { subst at_1f. unfold payload_data.
      rewrite lookup_take_lt, lookup_drop by lia.
      now replace (Z.to_nat (payload_offset c)
                   + (31 - Z.to_nat (payload_offset c)))%nat
        with 31%nat by lia. }
    destruct (split_at_difference data (payload_data c) at_1f _ _
                Hnew Horig Hrest) as [Hd1 Hd2].
    revert Hsame. unfold crc32_defaults, crc32. rewrite !Z.lxor_0_r.
    rewrite Hd1, Hd2. apply crc32_fold_one_byte; [reflexivity|].
    intros Heq. apply Hold. rewrite <- Heq. apply byte_val_crc8.
Qed.

Lemma crc32_covers_committed_crc8_witness :
  let data := payload_data (crc8_committed image_spanning) in
  let slot := take 4 (drop 36 (snd (fix_firmware_checksum image_spanning))) in
  slot = le_bytes4 (crc32_defaults data)
  /\ byte_val <$> data !! 15%nat = Some (crc8 (header image_spanning))
  /\ (forall j : nat, j <> 15%nat -> data !! j = payload_data image_spanning !! j)
  /\ (forall x : byte, image_spanning !! 31%nat = Some x ->
        byte_val x <> crc8 (header image_spanning) ->
        slot <> le_bytes4 (crc32_defaults (payload_data image_spanning))).
Proof.
  apply (crc32_covers_committed_crc8 image_spanning); [reflexivity|].
  vm_compute. split; [discriminate|reflexivity].
Defined.

(** At the sample image the byte at 0x1F was 5 and the new CRC-8 is
    200: the slot holds the CRC-32 over the data with 200 in it, which
    is not the CRC-32 over the data of the input. *)
Lemma crc32_slot_at_sample :
  image_spanning !! 31%nat = Some "005"%byte
  /\ crc8 (header image_spanning) = 200
  /\ take 4 (drop 36 (snd (fix_firmware_checksum image_spanning)))
     <> le_bytes4 (crc32_defaults (payload_data image_spanning)).
Proof.
  split; [reflexivity|]. split; [reflexivity|].
  vm_compute. discriminate.
Qed.
